(** * QA rank checker (src/App.tsx): a shallow embedding and its properties

    The component [QAChecker] asks a search API, for each keyword of a list,
    for the top results and reports whether one of the configured Q&A sites
    is among them.  This file embeds the pure helpers ([hostnameOf],
    [includesAny]), the classification loop and the asynchronous handler
    [handleCheck] (as a function from the network's answers to the final
    state and the trace of what the handler did), and the CSV formatter of
    [exportToCSV].

    JavaScript strings are modelled by [string]; the code only compares,
    concatenates and tests prefixes and suffixes, which read the same on any
    alphabet of code units. *)

From Stdlib Require Import String Ascii List ZArith Lia Bool DecimalString Sorted.
Import ListNotations.

Local Open Scope string_scope.
Local Open Scope list_scope.

(** ** Exceptions

    Code inside [try { ... } catch (e) { ... e.message ... }] either
    produces a value or throws; the handler reads only the message of what
    was thrown. *)

Inductive exn (A : Type) : Type :=
| Ret (a : A)
| Throw (message : string).

Arguments Ret {A} a.
Arguments Throw {A} message.

Definition bind {A B : Type} (c : exn A) (k : A -> exn B) : exn B :=
  match c with
  | Ret a => k a
  | Throw m => Throw m
  end.

Notation "x <- c ;; k" := (bind c (fun x => k))
  (at level 61, c at next level, right associativity).

(** ** Values read from an error body

    [errorData] is the result of [response.json()], typed [any]: a JSON
    value.  [VUndefined] is what reading an absent property gives.  Numbers
    are the integers; the code only tests them for truthiness. *)

#[warnings="-register-all"]
Inductive value : Type :=
| VUndefined
| VNull
| VBool (b : bool)
| VNum (z : Z)
| VStr (s : string)
| VArr (elements : list value)
| VObj (props : list (string * value)).

Fixpoint lookup (name : string) (props : list (string * value)) : value :=
  match props with
  | [] => VUndefined
  | (k, v) :: rest => if String.eqb k name then v else lookup name rest
  end.

(** ** The platform

    What the browser supplies and the repository does not define. *)

Record Platform : Type := {
  (** [new URL(s).hostname]; [None] when the constructor throws. *)
  url_hostname : string -> option string;
  (** [encodeURIComponent(s)]; throws a URIError on a lone surrogate. *)
  encodeURIComponent : string -> exn string;
  (** Is this code unit white space or a line terminator ([trim])? *)
  isWhiteSpace : ascii -> bool;
  (** [String(v)] for a value that is not a string. *)
  ToString_other : value -> string;
  (** The message of the TypeError thrown by reading property [name] of
      [undefined] or [null]. *)
  cannot_read : value -> string -> string
}.

(** ** Types of the component *)

Record SerpItem : Type := {
  link : string;
  title : string;
  snippet : string
}.

(** [status: "loading" | "ok" | "ng" | "error"] *)
Inductive Status : Type := StLoading | StOk | StNg | StError.

Record Result : Type := {
  keyword : string;
  status : Status;
  rank : option nat;
  domain : option string;
  serp : option (list SerpItem);
  error : option string
}.

Definition Status_eqb (a b : Status) : bool :=
  match a, b with
  | StLoading, StLoading | StOk, StOk | StNg, StNg | StError, StError => true
  | _, _ => false
  end.

(** The body of a successful answer, [data], typed [any], as lines 114-118
    read it:
    - [Body items]: a JSON value other than null whose [items] is absent or
      falsy ([None]) or is an array of items;
    - [BodyNullItem before]: a value whose [items] is an array that holds
      [null] after the items [before]; reading [.link] of that element
      throws a TypeError, and what follows it is never read;
    - [NullBody]: the JSON value null, of which reading [.items] throws a
      TypeError. *)
Inductive SearchData : Type :=
| Body (items : option (list SerpItem))
| BodyNullItem (before : list SerpItem)
| NullBody.

(** A settled response.  [response.ok] tells the two constructors apart;
    each carries what [response.json()] gives on the branch that reads it
    (for [Failure], also [response.status]). *)
Inductive Response : Type :=
| Success (data : exn SearchData)
| Failure (http_status : Z) (errorData : exn value).

(** The network: the outcome of the [fetch] issued for the keyword at
    position [n] of the list, with the URL requested.  A rejected promise
    is [Throw]. *)
Definition Network : Type := nat -> string -> exn Response.

(** What the handler does, in program order. *)
Inductive Event : Type :=
| EvAlert (message : string)
| EvSetIsLoading (b : bool)
| EvSetResults (rs : list Result)
| EvFetch (n : nat) (url : string).

(** The state the handler reads and writes: [apiKey], [cx], [searchRank]
    ([None] is NaN, what [parseInt] gives on an empty field), the memoised
    [keywordList] and [qaDomainList], [results] and [isLoading]. *)
Record AppState : Type := {
  apiKey : string;
  cx : string;
  searchRank : option Z;
  keywordList : list string;
  qaDomainList : list string;
  results : list Result;
  isLoading : bool
}.

(** ** Constants *)

Definition defaultQADomains : list string :=
  [ "chiebukuro.yahoo.co.jp";
    "detail.chiebukuro.yahoo.co.jp";
    "oshiete.goo.ne.jp";
    "okwave.jp";
    "teratail.com";
    "ja.stackoverflow.com";
    "stackoverflow.com" ].

Definition API_ENDPOINT : string := "https://www.googleapis.com/customsearch/v1".

Definition LF : string := String (ascii_of_nat 10) "".

(** ** String helpers of the language *)

(** [s.endsWith(t)]: the last [length t] code units of [s] are [t]. *)
Definition endsWith (s t : string) : bool :=
  let n := String.length s in
  let m := String.length t in
  if (m <=? n)%nat then String.eqb (substring (n - m) m s) t else false.

(** [h.replace(/^www\./, "")]: the pattern is anchored and not global, so
    one occurrence at the start is removed. *)
Definition replace_www (h : string) : string :=
  match h with
  | String "w" (String "w" (String "w" (String "." rest))) => rest
  | _ => h
  end.

(** [xs.join(sep)] on strings. *)
Fixpoint join (sep : string) (xs : list string) : string :=
  match xs with
  | [] => ""
  | [x] => x
  | x :: rest => x ++ sep ++ join sep rest
  end.

(** Number to string, for integers. *)
Definition string_of_Z (z : Z) : string := NilZero.string_of_int (Z.to_int z).
Definition string_of_nat (n : nat) : string := NilZero.string_of_uint (Nat.to_uint n).

(** [s.split(sep)] for a one-unit separator: cut at every separator. *)
Fixpoint split (sep : ascii -> bool) (s : string) : list string :=
  match s with
  | "" => [""]
  | String c s' =>
      if sep c then "" :: split sep s'
      else match split sep s' with
           | t :: ts => String c t :: ts
           | [] => [String c ""]
           end
  end.

(** [s.split(/[...]+/)]: cut at every maximal run of separators;
    [in_run] says that the unit before was a separator. *)
Fixpoint split_runs (sep : ascii -> bool) (in_run : bool) (s : string) : list string :=
  match s with
  | "" => [""]
  | String c s' =>
      if sep c then
        if in_run then split_runs sep true s' else "" :: split_runs sep true s'
      else match split_runs sep false s' with
           | t :: ts => String c t :: ts
           | [] => [String c ""]
           end
  end.

Section App.

Variable js : Platform.

Fixpoint trimStart (s : string) : string :=
  match s with
  | "" => ""
  | String c s' => if isWhiteSpace js c then trimStart s' else s
  end.

Fixpoint rev_string (s : string) : string :=
  match s with
  | "" => ""
  | String c s' => rev_string s' ++ String c ""
  end.

Definition trimEnd (s : string) : string := rev_string (trimStart (rev_string s)).

Definition trim (s : string) : string := trimEnd (trimStart s).

(** [String(v)] *)
Definition ToString (v : value) : string :=
  match v with
  | VStr s => s
  | _ => ToString_other js v
  end.

(** [v[name]] for a property name that no built-in object defines (the
    handler reads [error] and [message]): an own property of an object,
    [undefined] on any other value, a TypeError on [undefined] and [null]. *)
Definition get_prop (v : value) (name : string) : exn value :=
  match v with
  | VUndefined | VNull => Throw (cannot_read js v name)
  | VObj props => Ret (lookup name props)
  | _ => Ret VUndefined
  end.

(** Truthiness, as [||] tests it. *)
Definition truthy (v : value) : bool :=
  match v with
  | VUndefined | VNull => false
  | VBool b => b
  | VNum z => negb (z =? 0)%Z
  | VStr s => negb (String.eqb s "")
  | VArr _ | VObj _ => true
  end.

(** ** Utilities (lines 40-50) *)

Definition hostnameOf (url : string) : string :=
  match url_hostname js url with
  | Some h => replace_www h
  | None => ""
  end.

Definition includesAny (host : string) (patterns : list string) : bool :=
  existsb (fun p => String.eqb host p || endsWith host ("." ++ p)) patterns.

(** The item's normalized hostname matches the pattern list (the test of
    line 119). *)
Definition hostMatches (st : AppState) (item : SerpItem) : bool :=
  includesAny (hostnameOf (link item)) (qaDomainList st).

(** ** Memos (lines 88-89) *)

Definition is_LF (c : ascii) : bool := Ascii.eqb c (ascii_of_nat 10).
Definition is_LF_or_comma (c : ascii) : bool := is_LF c || Ascii.eqb c ","%char.

Definition keywordListOf (keywords : string) : list string :=
  filter (fun k => negb (String.eqb (trim k) "")) (split is_LF keywords).

Definition qaDomainListOf (qaDomains : string) : list string :=
  filter (fun d => negb (String.eqb (trim d) "")) (split_runs is_LF_or_comma false qaDomains).

(** ** The classification loop (lines 116-125)

    [scan all i rest] is the [for] loop at index [i], with [rest] the items
    from [i] on and [all] the whole array: the first item whose host
    matches gives [found] and breaks. *)

Fixpoint scan (st : AppState) (kw : string) (all : list SerpItem) (i : nat)
    (rest : list SerpItem) : option Result :=
  match rest with
  | [] => None
  | item :: rest' =>
      let host := hostnameOf (link item) in
      if includesAny host (qaDomainList st) then
        Some {| keyword := kw; status := StOk; rank := Some (i + 1);
                domain := Some host; serp := Some all; error := None |}
      else scan st kw all (S i) rest'
  end.

(** [found || { keyword, status: "ng", serp: items }] *)
Definition classify (st : AppState) (kw : string) (all : list SerpItem) : Result :=
  match scan st kw all 0 all with
  | Some found => found
  | None => {| keyword := kw; status := StNg; rank := None; domain := None;
               serp := Some all; error := None |}
  end.

(** ** The handler (lines 97-134) *)

Definition alertMessage : string :=
  "APIキーと検索エンジンID (cx) を入力してください。".

Definition string_of_rank (r : option Z) : string :=
  match r with
  | Some z => string_of_Z z
  | None => "NaN"
  end.

(** Line 107. *)
Definition requestUrl (st : AppState) (kw : string) : exn string :=
  q <- encodeURIComponent js kw ;;
  Ret (API_ENDPOINT ++ "?key=" ++ apiKey st ++ "&cx=" ++ cx st ++ "&q=" ++ q
       ++ "&num=" ++ string_of_rank (searchRank st) ++ "&gl=jp&hl=ja")%string.

(** Lines 109-112: the body of [if (!response.ok)], which always throws. *)
Definition throwHttpError (http_status : Z) (errorData : exn value) : exn Result :=
  errorData <- errorData ;;
  err <- get_prop errorData "error" ;;
  message <- get_prop err "message" ;;
  Throw (ToString (if truthy message then message
                   else VStr ("HTTP error! status: " ++ string_of_Z http_status))).

(** Lines 113-125: [data.items || []], then the classification.  On an
    array with a null element the loop stops at the first match, if one
    comes before the null, and throws at the null otherwise; [serp], typed
    [SerpItem[]], then lists the items before the null. *)
Definition classifyData (st : AppState) (kw : string) (data : exn SearchData) : exn Result :=
  data <- data ;;
  match data with
  | Body items =>
      Ret (classify st kw (match items with Some l => l | None => [] end))
  | BodyNullItem before =>
      match scan st kw before 0 before with
      | Some found => Ret found
      | None => Throw (cannot_read js VNull "link")
      end
  | NullBody => Throw (cannot_read js VNull "items")
  end.

(** Lines 108-125, once the URL is built. *)
Definition afterFetch (st : AppState) (kw : string) (fetched : exn Response) : exn Result :=
  response <- fetched ;;
  match response with
  | Failure http_status errorData => throwHttpError http_status errorData
  | Success data => classifyData st kw data
  end.

(** The [try] block for the keyword at position [n]: the request it issues,
    if any, and how the block ends. *)
Definition tryKeyword (st : AppState) (net : Network) (n : nat) (kw : string)
    : list Event * exn Result :=
  match requestUrl st kw with
  | Throw m => ([], Throw m)
  | Ret url => ([EvFetch n url], afterFetch st kw (net n url))
  end.

(** Line 129: [{ keyword, status: "error", error: e.message }] *)
Definition errorResult (kw message : string) : Result :=
  {| keyword := kw; status := StError; rank := None; domain := None;
     serp := None; error := Some message |}.

(** The Result that the iteration for [kw] stores, from either line 126 or
    line 129. *)
Definition keywordResult (st : AppState) (net : Network) (n : nat) (kw : string) : Result :=
  match snd (tryKeyword st net n kw) with
  | Ret result => result
  | Throw m => errorResult kw m
  end.

(** [prev.map(r => r.keyword === keyword ? result : r)] *)
Definition replaceByKeyword (kw : string) (result : Result) (prev : list Result)
    : list Result :=
  map (fun r => if String.eqb (keyword r) kw then result else r) prev.

(** Line 103: [{ keyword: k, status: "loading" }] *)
Definition loadingResult (k : string) : Result :=
  {| keyword := k; status := StLoading; rank := None; domain := None;
     serp := None; error := None |}.

(** The [for (const keyword of keywordList)] loop, at position [n] with
    [kws] the keywords from there on and [prev] the current [results]:
    the final [results] and the trace. *)
Fixpoint forKeywords (st : AppState) (net : Network) (n : nat) (kws : list string)
    (prev : list Result) : list Result * list Event :=
  match kws with
  | [] => (prev, [])
  | kw :: rest =>
      let next := replaceByKeyword kw (keywordResult st net n kw) prev in
      let (final, tr) := forKeywords st net (S n) rest next in
      (final, fst (tryKeyword st net n kw) ++ EvSetResults next :: tr)
  end.

Definition with_results (st : AppState) (rs : list Result) (loading : bool) : AppState :=
  {| apiKey := apiKey st; cx := cx st; searchRank := searchRank st;
     keywordList := keywordList st; qaDomainList := qaDomainList st;
     results := rs; isLoading := loading |}.

Definition handleCheck (st : AppState) (net : Network) : AppState * list Event :=
  if String.eqb (apiKey st) "" || String.eqb (cx st) "" then
    (st, [EvAlert alertMessage])
  else
    let init := map loadingResult (keywordList st) in
    let (final, tr) := forKeywords st net 0 (keywordList st) init in
    (with_results st final false,
     EvSetIsLoading true :: EvSetResults init :: tr ++ [EvSetIsLoading false]).

End App.

(** ** Export (lines 148-156 and 226) *)

Definition DQUOTE : string := String (ascii_of_nat 34) "".

Definition headers : list string := ["Keyword"; "Status"; "Rank"; "Domain"].

Definition label_ok : string := "◎ 狙い目".
Definition label_other : string := "✖ 見送り".

Definition statusLabel (s : Status) : string :=
  if Status_eqb s StOk then label_ok else label_other.

(** [r.rank ?? ""] and [r.domain ?? ""], as [join] prints them. *)
Definition rankCell (r : Result) : string :=
  match rank r with Some n => string_of_nat n | None => "" end.

Definition domainCell (r : Result) : string :=
  match domain r with Some d => d | None => "" end.

Definition csvRow (r : Result) : string :=
  join "," [(DQUOTE ++ keyword r ++ DQUOTE)%string; statusLabel (status r); rankCell r; domainCell r].

(** The text after the [data:text/csv;charset=utf-8,] prefix. *)
Definition csvText (rs : list Result) : string :=
  join LF (join "," headers :: map csvRow rs).

Definition csvContent (rs : list Result) : string :=
  "data:text/csv;charset=utf-8," ++ csvText rs.

(** Line 226: [disabled={results.some(r => r.status === 'loading')}] *)
Definition exportDisabled (rs : list Result) : bool :=
  existsb (fun r => Status_eqb (status r) StLoading) rs.

(** A click on the export button: nothing when it is disabled. *)
Definition clickExport (rs : list Result) : option string :=
  if exportDisabled rs then None else Some (csvContent rs).

(** ** Reading a trace *)

(** The successive values of [results] that a trace sets. *)
Fixpoint states (tr : list Event) : list (list Result) :=
  match tr with
  | [] => []
  | EvSetResults rs :: tr' => rs :: states tr'
  | _ :: tr' => states tr'
  end.

(** The value of [results] after the events of [tr], from [cur]. *)
Fixpoint current (cur : list Result) (tr : list Event) : list Result :=
  match tr with
  | [] => cur
  | EvSetResults rs :: tr' => current rs tr'
  | _ :: tr' => current cur tr'
  end.

(** The positions of the keywords that a trace issues a request for. *)
Fixpoint fetch_indices (tr : list Event) : list nat :=
  match tr with
  | [] => []
  | EvFetch n _ :: tr' => n :: fetch_indices tr'
  | _ :: tr' => fetch_indices tr'
  end.

(** A Result is terminal when it is no longer loading. *)
Definition terminal (r : Result) : Prop := status r <> StLoading.

(** The row at position [i] of [rs] is terminal. *)
Definition terminal_at (rs : list Result) (i : nat) : Prop :=
  exists r, nth_error rs i = Some r /\ terminal r.

(** Every terminal row of [rs1] is the same row in [rs2]. *)
Definition keeps (rs1 rs2 : list Result) : Prop :=
  forall i r, nth_error rs1 i = Some r -> terminal r -> nth_error rs2 i = Some r.

(** No Result is changed after it became terminal: of two updates of a
    trace, the later keeps the terminal rows of the earlier. *)
Definition never_mutated_after_terminal (tr : list Event) : Prop :=
  forall pre rs1 mid rs2 post,
    tr = pre ++ EvSetResults rs1 :: mid ++ EvSetResults rs2 :: post ->
    keeps rs1 rs2.

(** [P n url cur] holds at every request of the trace, [cur] being the
    value of [results] when the request is issued. *)
Fixpoint at_each_fetch (P : nat -> string -> list Result -> Prop)
    (cur : list Result) (tr : list Event) : Prop :=
  match tr with
  | [] => True
  | EvFetch n url :: tr' => P n url cur /\ at_each_fetch P cur tr'
  | EvSetResults rs :: tr' => at_each_fetch P rs tr'
  | _ :: tr' => at_each_fetch P cur tr'
  end.

(** When a request is issued for position [m] of the keyword list [all],
    it is the request of the keyword at [m], and the rows before [m] are
    terminal. *)
Definition fetch_ok (js : Platform) (st : AppState) (all : list string)
    (m : nat) (url : string) (cur : list Result) : Prop :=
  (exists kw, nth_error all m = Some kw /\ requestUrl js st kw = Ret url)
  /\ forall j, j < m -> terminal_at cur j.

(** A row is either still loading or the Result of a request for the
    keyword of that row. *)
Definition own_result (js : Platform) (st : AppState) (net : Network)
    (all : list string) (r : Result) : Prop :=
  r = loadingResult (keyword r)
  \/ exists q, nth_error all q = Some (keyword r)
               /\ r = keywordResult js st net q (keyword r).

(** Rank and domain are present only on a match. *)
Definition rank_iff_ok (r : Result) : Prop :=
  status r <> StOk -> rank r = None /\ domain r = None.

(** ** A concrete platform and concrete runs

    One instance of the platform, used where a property is evaluated on an
    input: a URL parser that recognises [http://host...] and
    [https://host...] with a plain host and takes every other string as
    unparseable, the percent-encoding of every byte outside the unreserved
    set, ASCII white space, and the messages of V8. *)

Module Demo.

Fixpoint strip_prefix (p s : string) : option string :=
  match p, s with
  | "", _ => Some s
  | String a p', String b s' => if Ascii.eqb a b then strip_prefix p' s' else None
  | String _ _, "" => None
  end.

Definition ends_host (c : ascii) : bool :=
  Ascii.eqb c "/" || Ascii.eqb c "?" || Ascii.eqb c "#" || Ascii.eqb c ":".

Definition bad_host_unit (c : ascii) : bool :=
  Ascii.eqb c " " || Ascii.eqb c "<" || Ascii.eqb c ">" || Ascii.eqb c "@".

Definition to_lower (c : ascii) : ascii :=
  let n := nat_of_ascii c in
  if ((65 <=? n)%nat && (n <=? 90)%nat) then ascii_of_nat (n + 32) else c.

Fixpoint take_host (s : string) : string :=
  match s with
  | "" => ""
  | String c s' => if ends_host c then "" else String (to_lower c) (take_host s')
  end.

Fixpoint any_unit (f : ascii -> bool) (s : string) : bool :=
  match s with
  | "" => false
  | String c s' => f c || any_unit f s'
  end.

Definition host_of (rest : string) : option string :=
  let h := take_host rest in
  if String.eqb h "" || any_unit bad_host_unit h then None else Some h.

Definition url_hostname (url : string) : option string :=
  match strip_prefix "https://" url with
  | Some rest => host_of rest
  | None =>
      match strip_prefix "http://" url with
      | Some rest => host_of rest
      | None => None
      end
  end.

Definition hex_digit (n : nat) : ascii :=
  nth n (list_ascii_of_string "0123456789ABCDEF") "0"%char.

Definition unreserved (c : ascii) : bool :=
  let n := nat_of_ascii c in
  ((48 <=? n)%nat && (n <=? 57)%nat) || ((65 <=? n)%nat && (n <=? 90)%nat)
  || ((97 <=? n)%nat && (n <=? 122)%nat) || any_unit (Ascii.eqb c) "-_.!~*'()".

Fixpoint percent_encode (s : string) : string :=
  match s with
  | "" => ""
  | String c s' =>
      if unreserved c then String c (percent_encode s')
      else String "%" (String (hex_digit (nat_of_ascii c / 16))
             (String (hex_digit (nat_of_ascii c mod 16)) (percent_encode s')))
  end.

Definition isWhiteSpace (c : ascii) : bool :=
  let n := nat_of_ascii c in
  ((9 <=? n)%nat && (n <=? 13)%nat) || (n =? 32)%nat.

Fixpoint ToString_other (v : value) : string :=
  match v with
  | VUndefined => "undefined"
  | VNull => "null"
  | VBool b => if b then "true" else "false"
  | VNum z => string_of_Z z
  | VStr s => s
  | VArr l =>
      join "," (map (fun e => match e with
                              | VUndefined | VNull => ""
                              | _ => ToString_other e
                              end) l)
  | VObj _ => "[object Object]"
  end.

Definition cannot_read (v : value) (name : string) : string :=
  "Cannot read properties of "
  ++ match v with VNull => "null" | _ => "undefined" end
  ++ " (reading '" ++ name ++ "')".

Definition js : Platform :=
  Build_Platform url_hostname (fun s => Ret (percent_encode s)) isWhiteSpace
    ToString_other cannot_read.

Definition item (url : string) : SerpItem :=
  {| link := url; title := "t"; snippet := "s" |}.

Definition st (kws patterns : list string) : AppState :=
  {| apiKey := "KEY"; cx := "CX"; searchRank := Some 10%Z;
     keywordList := kws; qaDomainList := patterns;
     results := []; isLoading := false |}.

(** Three keywords; the second request is refused with HTTP 403. *)
Definition st3 : AppState := st ["k1"; "k2"; "k3"] ["qa.co"].

Definition items3 : list SerpItem :=
  [item "https://a.com/1"; item "https://b.com/2"; item "https://www.qa.co/q/3"].

Definition net3 : Network := fun n _ =>
  match n with
  | 0 => Ret (Success (Ret (Body (Some items3))))
  | 1 => Ret (Failure 403 (Ret (VObj [("error", VObj [("message", VStr "Forbidden")])])))
  | _ => Ret (Success (Ret (Body None)))
  end.

(** The same keyword twice; the first request succeeds, the second is
    rejected. *)
Definition st_dup : AppState := st ["a"; "a"] ["qa.co"].

Definition net_dup : Network := fun n _ =>
  match n with
  | 0 => Ret (Success (Ret (Body (Some []))))
  | _ => Throw "Failed to fetch"
  end.

(** No API key. *)
Definition st_nokey : AppState :=
  {| apiKey := ""; cx := "CX"; searchRank := Some 10%Z;
     keywordList := ["k1"]; qaDomainList := ["qa.co"];
     results := []; isLoading := false |}.

(** HTTP 502 with the body [{}]. *)
Definition net_502 : Network := fun _ _ => Ret (Failure 502 (Ret (VObj []))).

End Demo.


(** ** Local storage (lines 52-68 and 75-94) *)

(** Does the string hold a code unit that satisfies [f]? *)
Fixpoint has_unit (f : ascii -> bool) (s : string) : bool :=
  match s with
  | "" => false
  | String c s' => f c || has_unit f s'
  end.

(** The content of [localStorage]: the item stored under each key. *)
Definition Storage : Type := string -> option string.

(** What the browser supplies for the settings: [JSON.stringify] (the text
    that [setItem] receives) and [JSON.parse], either of which may throw,
    and whether an access to [localStorage] throws (storage disabled, quota
    exceeded), with the message of the exception. *)
Record StoragePlatform : Type := {
  JSON_stringify : value -> exn string;
  JSON_parse : string -> exn value;
  getItem_error : Storage -> string -> option string;
  setItem_error : Storage -> string -> string -> option string
}.

Section LocalStorage.

Variable env : StoragePlatform.

Definition getItem (s : Storage) (key : string) : exn (option string) :=
  match getItem_error env s key with
  | Some m => Throw m
  | None => Ret (s key)
  end.

Definition setItem (s : Storage) (key text : string) : exn Storage :=
  match setItem_error env s key text with
  | Some m => Throw m
  | None => Ret (fun k => if String.eqb k key then Some text else s k)
  end.

(** [saveLocal]: the storage afterwards, and the message of the exception
    that was logged, if any. *)
Definition saveLocal (s : Storage) (key : string) (v : value) : Storage * option string :=
  match (text <- JSON_stringify env v ;; setItem s key text) with
  | Ret s' => (s', None)
  | Throw m => (s, Some m)
  end.

(** [loadLocal]: the value returned, and the message of the exception that
    was logged, if any.  [item ? JSON.parse(item) : defaultValue] takes the
    default for [null] and for the empty string. *)
Definition loadLocal (s : Storage) (key : string) (defaultValue : value)
    : value * option string :=
  match (item <- getItem s key ;;
         match item with
         | Some text => if String.eqb text "" then Ret defaultValue else JSON_parse env text
         | None => Ret defaultValue
         end) with
  | Ret v => (v, None)
  | Throw m => (defaultValue, Some m)
  end.

(** Line 94: the effect that saves the pattern list. *)
Definition saveDomains (s : Storage) (domains : list string) : Storage * option string :=
  saveLocal s "qa_checker_domains" (VArr (map VStr domains)).

End LocalStorage.

(** [v.join(sep)]: on an array, the elements as strings ([undefined] and
    [null] as the empty string); [None] when [v] is not an array, where the
    call throws a TypeError. *)
Definition array_join (js : Platform) (sep : string) (v : value) : option string :=
  match v with
  | VArr elements =>
      Some (join sep (map (fun e => match e with
                                    | VUndefined | VNull => ""
                                    | _ => ToString js e
                                    end) elements))
  | _ => None
  end.

(** Lines 78-80: the initial text of the pattern field. *)
Definition initialQaDomains (js : Platform) (env : StoragePlatform) (s : Storage)
    : option string :=
  array_join js LF
    (fst (loadLocal env s "qa_checker_domains" (VArr (map VStr defaultQADomains)))).

(** ** The expanded rows (lines 84 and 136-146)

    A [Set<string>] is the list of its elements in insertion order. *)

Definition set_has (k : string) (s : list string) : bool :=
  existsb (String.eqb k) s.

Definition set_add (k : string) (s : list string) : list string :=
  if set_has k s then s else s ++ [k].

Definition set_delete (k : string) (s : list string) : list string :=
  filter (fun x => negb (String.eqb x k)) s.

Definition toggleExpand (kw : string) (prev : list string) : list string :=
  let newSet := prev in
  if set_has kw newSet then set_delete kw newSet else set_add kw newSet.

(** ** Rendering (lines 196, 246 and 269) *)

(** [disabled={isLoading || keywordList.length === 0}] *)
Definition checkDisabled (st : AppState) : bool :=
  isLoading st || (length (keywordList st) =? 0)%nat.

(** [r.serp && r.serp.length > 0]: the row shows its expand toggle. *)
Definition showsToggle (r : Result) : bool :=
  match serp r with
  | Some l => (0 <? length l)%nat
  | None => false
  end.

(** The error text of a row is rendered inside its expanded area. *)
Definition showsErrorText (expandedKeywords : list string) (r : Result) : bool :=
  set_has (keyword r) expandedKeywords && Status_eqb (status r) StError.

(** ** Reading a run *)

(** The position of the last occurrence of [k] in [l]. *)
Fixpoint last_index (k : string) (l : list string) : option nat :=
  match l with
  | [] => None
  | x :: rest =>
      match last_index k rest with
      | Some q => Some (S q)
      | None => if String.eqb x k then Some 0 else None
      end
  end.

(** Does [encodeURIComponent] return on this keyword? *)
Definition encodes (js : Platform) (kw : string) : bool :=
  match encodeURIComponent js kw with
  | Ret _ => true
  | Throw _ => false
  end.

(** The fields that a Result has, by its status; for a match, the rank
    points at the first matching item of the Result's own list. *)
Definition fields_by_status (js : Platform) (st : AppState) (r : Result) : Prop :=
  match status r with
  | StLoading => rank r = None /\ domain r = None /\ serp r = None /\ error r = None
  | StOk =>
      exists k item all,
        rank r = Some (k + 1) /\ serp r = Some all /\ error r = None
        /\ nth_error all k = Some item
        /\ domain r = Some (hostnameOf js (link item))
        /\ hostMatches js st item = true
        /\ forall j other, j < k -> nth_error all j = Some other ->
                           hostMatches js st other = false
  | StNg =>
      rank r = None /\ domain r = None /\ error r = None
      /\ exists all, serp r = Some all
                     /\ forall item, In item all -> hostMatches js st item = false
  | StError =>
      rank r = None /\ domain r = None /\ serp r = None
      /\ exists m, error r = Some m
  end.

(** ** A concrete storage platform

    [JSON.stringify] for strings that need no escape, and [JSON.parse] for
    the texts it produces from a string or an array of strings; the storage
    never throws. *)

Module DemoStore.

Fixpoint stringify (v : value) : string :=
  match v with
  | VUndefined => "undefined"
  | VNull => "null"
  | VBool b => if b then "true" else "false"
  | VNum z => string_of_Z z
  | VStr s => DQUOTE ++ s ++ DQUOTE
  | VArr l => "[" ++ join "," (map stringify l) ++ "]"
  | VObj props =>
      "{" ++ join "," (map (fun p => DQUOTE ++ fst p ++ DQUOTE ++ ":" ++ stringify (snd p))%string
                          props) ++ "}"
  end.

Definition is_quote (c : ascii) : bool := Ascii.eqb c (ascii_of_nat 34).

(** After an opening quote: the content up to the closing quote, and what
    follows it. *)
Fixpoint read_string (s : string) : option (string * string) :=
  match s with
  | "" => None
  | String c s' =>
      if is_quote c then Some ("", s')
      else match read_string s' with
           | Some (t, rest) => Some (String c t, rest)
           | None => None
           end
  end.

(** The elements of an array of strings, after the opening bracket or a
    comma. *)
Fixpoint read_elements (fuel : nat) (s : string) : option (list string) :=
  match fuel with
  | O => None
  | S fuel' =>
      match s with
      | String c s' =>
          if is_quote c then
            match read_string s' with
            | Some (t, String "," rest) =>
                match read_elements fuel' rest with
                | Some ts => Some (t :: ts)
                | None => None
                end
            | Some (t, String "]" "") => Some [t]
            | _ => None
            end
          else None
      | "" => None
      end
  end.

Definition parse (text : string) : exn value :=
  match text with
  | String "[" (String "]" "") => Ret (VArr [])
  | String "[" rest =>
      match read_elements (String.length rest) rest with
      | Some ts => Ret (VArr (map VStr ts))
      | None => Throw "Unexpected token"
      end
  | String c rest =>
      if is_quote c then
        match read_string rest with
        | Some (t, "") => Ret (VStr t)
        | _ => Throw "Unexpected token"
        end
      else Throw "Unexpected token"
  | "" => Throw "Unexpected end of JSON input"
  end.

Definition env : StoragePlatform :=
  Build_StoragePlatform (fun v => Ret (stringify v)) parse (fun _ _ => None)
    (fun _ _ _ => None).

Definition empty : Storage := fun _ => None.

End DemoStore.

(** * Properties *)

(** ** Strings *)

Lemma length_append (s t : string) :
  String.length (s ++ t) = String.length s + String.length t.
Proof.
  induction s as [|c s IH]; simpl; [reflexivity | now rewrite IH].
Qed.

Lemma append_nil_r (s : string) : (s ++ "")%string = s.
Proof.
  induction s as [|c s IH]; simpl; [reflexivity | now rewrite IH].
Qed.

Lemma append_assoc (s t u : string) : ((s ++ t) ++ u = s ++ (t ++ u))%string.
Proof.
  induction s as [|c s IH]; simpl; [reflexivity | now rewrite IH].
Qed.

Lemma substring_whole (t : string) : substring 0 (String.length t) t = t.
Proof.
  induction t as [|c t IH]; simpl; [reflexivity | now rewrite IH].
Qed.

Lemma substring_after (pre t : string) :
  substring (String.length pre) (String.length t) (pre ++ t) = t.
Proof.
  induction pre as [|c pre IH]; simpl; [apply substring_whole | exact IH].
Qed.

Lemma substring_cut (s : string) (n : nat) :
  n <= String.length s ->
  s = (substring 0 n s ++ substring n (String.length s - n) s)%string.
Proof.
  revert n. induction s as [|c s IH]; intros n Hn; simpl in *.
  - assert (n = 0) by lia. subst. reflexivity.
  - destruct n as [|n]; simpl.
    + now rewrite substring_whole.
    + rewrite <- IH by lia. reflexivity.
Qed.

(** [endsWith] decides "is a suffix of". *)
Lemma endsWith_spec (s t : string) :
  endsWith s t = true <-> exists pre, s = (pre ++ t)%string.
Proof.
  unfold endsWith. split.
  - destruct (Nat.leb_spec (String.length t) (String.length s)) as [Hle|Hlt];
      [|discriminate].
    intros H. apply String.eqb_eq in H.
    exists (substring 0 (String.length s - String.length t) s).
    pose proof (substring_cut s (String.length s - String.length t)) as Hc.
    replace (String.length s - (String.length s - String.length t))
      with (String.length t) in Hc by lia.
    rewrite H in Hc. apply Hc. lia.
  - intros [pre ->]. rewrite length_append.
    destruct (Nat.leb_spec (String.length t) (String.length pre + String.length t));
      [|lia].
    replace (String.length pre + String.length t - String.length t)
      with (String.length pre) by lia.
    rewrite substring_after. apply String.eqb_refl.
Qed.

Lemma endsWith_empty (t : string) : endsWith "" t = true -> t = "".
Proof.
  intros H. apply endsWith_spec in H. destruct H as [pre H].
  destruct pre; simpl in H; [now subst | discriminate].
Qed.

(** The prefix that [replace_www] removes. *)
Lemma replace_www_prefixed (rest : string) : replace_www ("www." ++ rest) = rest.
Proof. reflexivity. Qed.

Lemma replace_www_other (h : string) :
  (forall rest, h <> ("www." ++ rest)%string) -> replace_www h = h.
Proof.
  intros H.
  destruct h as [|a h]; [reflexivity|].
  destruct a as [[] [] [] [] [] [] [] []]; try reflexivity.
  destruct h as [|b h]; [reflexivity|].
  destruct b as [[] [] [] [] [] [] [] []]; try reflexivity.
  destruct h as [|c h]; [reflexivity|].
  destruct c as [[] [] [] [] [] [] [] []]; try reflexivity.
  destruct h as [|d h]; [reflexivity|].
  destruct d as [[] [] [] [] [] [] [] []]; try reflexivity.
  exfalso. apply (H h). reflexivity.
Qed.

(** ** The utilities *)

Lemma trim_empty (js : Platform) : trim js "" = "".
Proof. reflexivity. Qed.

(** The memoised pattern list has no empty pattern: blank entries are
    filtered out. *)
Lemma qaDomainListOf_nonempty (js : Platform) (qaDomains p : string) :
  In p (qaDomainListOf js qaDomains) -> p <> "".
Proof.
  unfold qaDomainListOf. intros H. apply filter_In in H. destruct H as [_ H].
  intros ->. rewrite trim_empty in H. discriminate.
Qed.

Lemma keywordListOf_nonempty (js : Platform) (keywords k : string) :
  In k (keywordListOf js keywords) -> k <> "".
Proof.
  unfold keywordListOf. intros H. apply filter_In in H. destruct H as [_ H].
  intros ->. rewrite trim_empty in H. discriminate.
Qed.

Lemma includesAny_true_iff (h : string) (P : list string) :
  includesAny h P = true <->
  exists p, In p P /\ (h = p \/ exists pre, h = (pre ++ "." ++ p)%string).
Proof.
  unfold includesAny. rewrite existsb_exists. split.
  - intros [p [Hin H]]. exists p. split; [exact Hin|].
    apply orb_true_iff in H. destruct H as [H|H].
    + left. now apply String.eqb_eq.
    + right. now apply endsWith_spec.
  - intros [p [Hin H]]. exists p. split; [exact Hin|].
    apply orb_true_iff. destruct H as [H|H].
    + left. now apply String.eqb_eq.
    + right. now apply endsWith_spec.
Qed.

(** C6, the claim as stated, fails: the empty hostname matches the list
    whose only pattern is the empty pattern, because it equals it. *)
Lemma includesAny_empty_host_matches_empty_pattern :
  includesAny "" [""] = true.
Proof. reflexivity. Qed.

(** C6 (amended): [includesAny h P] is true exactly when [h] equals some
    pattern of [P] or ends with a dot followed by some pattern of [P]; and
    the empty hostname matches no list whose patterns are all non-empty. *)
Theorem includesAny_spec (h : string) (P : list string) :
  (includesAny h P = true <->
   exists p, In p P /\ (h = p \/ exists pre, h = (pre ++ "." ++ p)%string))
  /\ ((forall p, In p P -> p <> "") -> includesAny "" P = false).
Proof.
  split; [apply includesAny_true_iff|].
  intros Hne. destruct (includesAny "" P) eqn:E; [|reflexivity].
  apply includesAny_true_iff in E. destruct E as [p [Hin [H|[pre H]]]].
  - exfalso. apply (Hne p Hin). now symmetry.
  - destruct pre; discriminate.
Qed.

(** The matcher on the examples: the empty hostname against a list without
    empty pattern, and a subdomain. *)
Lemma includesAny_spec_witness :
  includesAny "" ["example.com"] = false
  /\ includesAny "sub.example.com" ["example.com"] = true.
Proof.
  split.
  - apply (proj2 (includesAny_spec "" ["example.com"])).
    intros p [<-|[]]. discriminate.
  - apply (proj1 (includesAny_spec "sub.example.com" ["example.com"])).
    exists "example.com". split; [now left|]. right. now exists "sub".
Defined.

Section Utilities.

Variable js : Platform.

(** C7: [hostnameOf] is a total function (the exception of [new URL] is
    caught): on a parseable URL it gives the hostname without a leading
    [www.] label, on any other string the empty string. *)
Theorem hostnameOf_spec (url : string) :
  match url_hostname js url with
  | Some h =>
      (forall rest, h = ("www." ++ rest)%string -> hostnameOf js url = rest)
      /\ ((forall rest, h <> ("www." ++ rest)%string) -> hostnameOf js url = h)
  | None => hostnameOf js url = ""
  end.
Proof.
  unfold hostnameOf. destruct (url_hostname js url) as [h|]; [|reflexivity].
  split.
  - intros rest ->. apply replace_www_prefixed.
  - apply replace_www_other.
Qed.

(** C10: one leading [www.] label is removed, not every one: a hostname
    that starts with two of them keeps the second. *)
Theorem hostnameOf_strips_one_www (url rest : string) :
  url_hostname js url = Some ("www.www." ++ rest)%string ->
  hostnameOf js url = ("www." ++ rest)%string.
Proof.
  intros H. unfold hostnameOf. rewrite H. reflexivity.
Qed.

End Utilities.

(** The normalizer on the concrete platform. *)
Lemma hostnameOf_spec_witness :
  hostnameOf Demo.js "https://www.example.com/x" = "example.com"
  /\ hostnameOf Demo.js "https://example.org/" = "example.org"
  /\ hostnameOf Demo.js "not a url" = "".
Proof.
  split; [|split].
  - apply (proj1 (hostnameOf_spec Demo.js "https://www.example.com/x")).
    reflexivity.
  - apply (proj2 (hostnameOf_spec Demo.js "https://example.org/")).
    intros rest. discriminate.
  - exact (hostnameOf_spec Demo.js "not a url").
Defined.

(** Two leading labels, on the concrete platform. *)
Lemma hostnameOf_strips_one_www_witness :
  hostnameOf Demo.js "https://www.www.example.com/" = "www.example.com".
Proof.
  apply (hostnameOf_strips_one_www Demo.js "https://www.www.example.com/" "example.com").
  reflexivity.
Defined.

(** ** The classification loop *)

Section Classifier.

Variable js : Platform.
Variable st : AppState.

Lemma scan_first (kw : string) (all : list SerpItem) :
  forall rest i k item,
    nth_error rest k = Some item ->
    hostMatches js st item = true ->
    (forall j other, j < k -> nth_error rest j = Some other -> hostMatches js st other = false) ->
    scan js st kw all i rest =
    Some {| keyword := kw; status := StOk; rank := Some (i + k + 1);
            domain := Some (hostnameOf js (link item)); serp := Some all;
            error := None |}.
Proof.
  induction rest as [|x rest IH]; intros i k item Hk Hm Hbefore.
  - destruct k; discriminate.
  - destruct k as [|k]; simpl in Hk.
    + injection Hk as ->. simpl. fold (hostMatches js st item). rewrite Hm.
      now rewrite Nat.add_0_r.
    + simpl. fold (hostMatches js st x).
      rewrite (Hbefore 0 x) by (simpl; first [lia | reflexivity]).
      rewrite (IH (S i) k item Hk Hm).
      * do 3 f_equal. lia.
      * intros j other Hj Hnth. apply (Hbefore (S j) other); [lia | exact Hnth].
Qed.

Lemma scan_none (kw : string) (all : list SerpItem) :
  forall rest i,
    (forall item, In item rest -> hostMatches js st item = false) ->
    scan js st kw all i rest = None.
Proof.
  induction rest as [|x rest IH]; intros i H; simpl; [reflexivity|].
  fold (hostMatches js st x). rewrite (H x) by now left.
  apply IH. intros item Hin. apply H. now right.
Qed.

(** C1: the classifier reports the first item (lowest position) whose
    normalized hostname matches, with its 1-based position and that
    hostname; it reports not-matched when no item matches; either way the
    whole ordered list is kept in the Result. *)
Theorem classify_first_match (kw : string) (all : list SerpItem) :
  (forall k item,
      nth_error all k = Some item ->
      hostMatches js st item = true ->
      (forall j other, j < k -> nth_error all j = Some other -> hostMatches js st other = false) ->
      classify js st kw all =
      {| keyword := kw; status := StOk; rank := Some (k + 1);
         domain := Some (hostnameOf js (link item)); serp := Some all;
         error := None |})
  /\ ((forall item, In item all -> hostMatches js st item = false) ->
      classify js st kw all =
      {| keyword := kw; status := StNg; rank := None; domain := None;
         serp := Some all; error := None |})
  /\ serp (classify js st kw all) = Some all.
Proof.
  split; [|split].
  - intros k item Hk Hm Hbefore. unfold classify.
    now rewrite (scan_first kw all all 0 k item Hk Hm Hbefore).
  - intros H. unfold classify. now rewrite scan_none.
  - unfold classify.
    assert (G : forall rest i r, scan js st kw all i rest = Some r -> serp r = Some all).
    { induction rest as [|x rest IH]; intros i r; simpl; [discriminate|].
      destruct (includesAny _ _); [|apply IH].
      intros [= <-]. reflexivity. }
    destruct (scan js st kw all 0 all) as [r|] eqn:E; [|reflexivity].
    apply (G all 0 r E).
Qed.

End Classifier.

(** Hosts [a.com; b.com; qa.co] against the pattern [qa.co]: a match at
    position 3; the first two items alone: no match. *)
Lemma classify_first_match_witness :
  classify Demo.js Demo.st3 "k1" Demo.items3 =
  {| keyword := "k1"; status := StOk; rank := Some 3; domain := Some "qa.co";
     serp := Some Demo.items3; error := None |}
  /\ classify Demo.js Demo.st3 "k1" (firstn 2 Demo.items3) =
     {| keyword := "k1"; status := StNg; rank := None; domain := None;
        serp := Some (firstn 2 Demo.items3); error := None |}.
Proof.
  split.
  - apply (proj1 (classify_first_match Demo.js Demo.st3 "k1" Demo.items3)
             2 (Demo.item "https://www.qa.co/q/3")); try reflexivity.
    intros j other Hj Hnth.
    destruct j as [|[|j]]; [| |lia]; injection Hnth as <-; reflexivity.
  - apply (proj1 (proj2 (classify_first_match Demo.js Demo.st3 "k1"
                           (firstn 2 Demo.items3)))).
    intros item [<-|[<-|[]]]; reflexivity.
Defined.

(** ** One iteration of the batch *)

Section Iteration.

Variable js : Platform.
Variable st : AppState.

Lemma scan_shape (kw : string) (all : list SerpItem) :
  forall rest i r,
    scan js st kw all i rest = Some r ->
    keyword r = kw /\ status r = StOk.
Proof.
  induction rest as [|x rest IH]; intros i r; simpl; [discriminate|].
  destruct (includesAny _ _); [|apply IH].
  intros [= <-]. split; reflexivity.
Qed.

Lemma classify_shape (kw : string) (all : list SerpItem) :
  keyword (classify js st kw all) = kw
  /\ (status (classify js st kw all) = StOk
      \/ status (classify js st kw all) = StNg
         /\ rank (classify js st kw all) = None
         /\ domain (classify js st kw all) = None).
Proof.
  unfold classify. destruct (scan js st kw all 0 all) as [r|] eqn:E.
  - apply scan_shape in E. destruct E as [-> ->]. split; [reflexivity | now left].
  - simpl. split; [reflexivity | right; repeat split].
Qed.

(** The body of [if (!response.ok)] always throws. *)
Lemma throwHttpError_throws (http_status : Z) (errorData : exn value) :
  exists m, throwHttpError js http_status errorData = Throw m.
Proof.
  unfold throwHttpError. destruct errorData as [d|m]; simpl; [|now exists m].
  destruct (get_prop js d "error") as [e|m]; simpl; [|now exists m].
  destruct (get_prop js e "message") as [v|m]; simpl; [|now exists m].
  eexists. reflexivity.
Qed.

Variable net : Network.

(** What an iteration stores is a classification or an error Result. *)
Lemma keywordResult_cases (n : nat) (kw : string) :
  (exists all, keywordResult js st net n kw = classify js st kw all)
  \/ (exists m, keywordResult js st net n kw = errorResult kw m).
Proof.
  unfold keywordResult, tryKeyword.
  destruct (requestUrl js st kw) as [url|m]; simpl; [|right; now exists m].
  unfold afterFetch. destruct (net n url) as [[data|http_status errorData]|m]; simpl.
  - unfold classifyData. destruct data as [[items|before|]|m]; simpl.
    + left. eexists. reflexivity.
    + destruct (scan js st kw before 0 before) as [found|] eqn:E.
      * left. exists before. unfold classify. now rewrite E.
      * right. eexists. reflexivity.
    + right. eexists. reflexivity.
    + right. now exists m.
  - destruct (throwHttpError_throws http_status errorData) as [m ->].
    right. now exists m.
  - right. now exists m.
Qed.

Lemma keywordResult_keyword (n : nat) (kw : string) :
  keyword (keywordResult js st net n kw) = kw.
Proof.
  destruct (keywordResult_cases n kw) as [[all ->]|[m ->]].
  - apply classify_shape.
  - reflexivity.
Qed.

Lemma keywordResult_terminal (n : nat) (kw : string) :
  terminal (keywordResult js st net n kw).
Proof.
  unfold terminal. destruct (keywordResult_cases n kw) as [[all ->]|[m ->]].
  - destruct (classify_shape kw all) as [_ [H|[H _]]]; rewrite H; discriminate.
  - discriminate.
Qed.

Lemma keywordResult_rank_iff_ok (n : nat) (kw : string) :
  rank_iff_ok (keywordResult js st net n kw).
Proof.
  unfold rank_iff_ok. destruct (keywordResult_cases n kw) as [[all ->]|[m ->]].
  - destruct (classify_shape kw all) as [_ [H|[_ H]]]; [congruence | intros _; exact H].
  - intros _. split; reflexivity.
Qed.

(** The server's message, when the body has one: a non-empty string at
    [error.message]. *)
Lemma throwHttpError_server_message (http_status : Z) (d e : value) (m : string) :
  get_prop js d "error" = Ret e ->
  get_prop js e "message" = Ret (VStr m) ->
  m <> "" ->
  throwHttpError js http_status (Ret d) = Throw m.
Proof.
  intros He Hm Hne. unfold throwHttpError. simpl. rewrite He. simpl.
  rewrite Hm. simpl.
  destruct (String.eqb_spec m ""); [contradiction | reflexivity].
Qed.

(** The generic message, when the body has an [error] without a (truthy)
    [message]. *)
Lemma throwHttpError_generic (http_status : Z) (d e v : value) :
  get_prop js d "error" = Ret e ->
  get_prop js e "message" = Ret v ->
  truthy v = false ->
  throwHttpError js http_status (Ret d) =
  Throw ("HTTP error! status: " ++ string_of_Z http_status).
Proof.
  intros He Hm Hv. unfold throwHttpError. simpl. rewrite He. simpl.
  rewrite Hm. simpl. rewrite Hv. reflexivity.
Qed.

(** C4, at the failing inputs: a non-success response whose JSON body is
    an object without an [error] property (such as [{}]), or whose body is
    not JSON.  In the first case reading [errorData.error.message] throws a
    TypeError before the fallback [|| `HTTP error! status: ...`] is
    reached; in the second [response.json()] rejects.  Either way the
    Result is failed with the message of that exception, not with the
    generic HTTP error message and its status code. *)
Theorem http_error_without_error_object (n : nat) (kw url : string)
    (http_status : Z) :
  requestUrl js st kw = Ret url ->
  (forall props,
      net n url = Ret (Failure http_status (Ret (VObj props))) ->
      lookup "error" props = VUndefined ->
      keywordResult js st net n kw =
      errorResult kw (cannot_read js VUndefined "message"))
  /\ (forall m,
        net n url = Ret (Failure http_status (Throw m)) ->
        keywordResult js st net n kw = errorResult kw m).
Proof.
  intros Hurl. split.
  - intros props Hnet Hprops. unfold keywordResult, tryKeyword. rewrite Hurl. simpl.
    unfold afterFetch. rewrite Hnet. simpl.
    unfold throwHttpError. simpl. rewrite Hprops. reflexivity.
  - intros m Hnet. unfold keywordResult, tryKeyword. rewrite Hurl. simpl.
    unfold afterFetch. rewrite Hnet. reflexivity.
Qed.

End Iteration.

(** HTTP 502 with the body [{}], on the concrete platform: the error of
    the Result is the TypeError's message, which is not the generic one. *)
Lemma http_error_without_error_object_witness :
  keywordResult Demo.js (Demo.st ["k"] []) Demo.net_502 0 "k" =
  errorResult "k" "Cannot read properties of undefined (reading 'message')"
  /\ error (keywordResult Demo.js (Demo.st ["k"] []) Demo.net_502 0 "k") <>
     Some ("HTTP error! status: " ++ string_of_Z 502)%string.
Proof.
  assert (E : keywordResult Demo.js (Demo.st ["k"] []) Demo.net_502 0 "k" =
              errorResult "k" "Cannot read properties of undefined (reading 'message')").
  { apply (proj1 (http_error_without_error_object Demo.js (Demo.st ["k"] [])
                    Demo.net_502 0 "k"
                    "https://www.googleapis.com/customsearch/v1?key=KEY&cx=CX&q=k&num=10&gl=jp&hl=ja"
                    502 eq_refl) []); reflexivity. }
  split; [exact E|]. rewrite E. discriminate.
Defined.

(** ** Traces *)

Lemma states_app (tr1 tr2 : list Event) :
  states (tr1 ++ tr2) = states tr1 ++ states tr2.
Proof.
  induction tr1 as [|e tr1 IH]; simpl; [reflexivity|].
  destruct e; simpl; now rewrite IH.
Qed.

Lemma current_app (cur : list Result) (tr1 tr2 : list Event) :
  current cur (tr1 ++ tr2) = current (current cur tr1) tr2.
Proof.
  revert cur. induction tr1 as [|e tr1 IH]; intros cur; simpl; [reflexivity|].
  destruct e; apply IH.
Qed.

Lemma fetch_indices_app (tr1 tr2 : list Event) :
  fetch_indices (tr1 ++ tr2) = fetch_indices tr1 ++ fetch_indices tr2.
Proof.
  induction tr1 as [|e tr1 IH]; simpl; [reflexivity|].
  destruct e; simpl; now rewrite IH.
Qed.

Lemma at_each_fetch_split (P : nat -> string -> list Result -> Prop) :
  forall pre cur n url post,
    at_each_fetch P cur (pre ++ EvFetch n url :: post) ->
    P n url (current cur pre).
Proof.
  induction pre as [|e pre IH]; intros cur n url post H; simpl in *.
  - apply H.
  - destruct e; simpl in *; try (eapply IH; eassumption).
    destruct H as [_ H]. eapply IH; eassumption.
Qed.

Lemma ForallOrdPairs_pick {A : Type} (R : A -> A -> Prop) :
  forall l1 a l2 b l3,
    ForallOrdPairs R (l1 ++ a :: l2 ++ b :: l3) -> R a b.
Proof.
  induction l1 as [|x l1 IH]; intros a l2 b l3 H; simpl in H.
  - inversion H as [|? ? Ha _]; subst.
    rewrite Forall_forall in Ha. apply Ha. apply in_elt.
  - inversion H; subst. eapply IH; eassumption.
Qed.

Lemma skipn_cons_inv {A : Type} (l : list A) :
  forall n x rest,
    skipn n l = x :: rest -> nth_error l n = Some x /\ skipn (S n) l = rest.
Proof.
  induction l as [|y l IH]; intros n x rest H.
  - destruct n; discriminate.
  - destruct n as [|n]; simpl in *.
    + injection H as -> ->. split; reflexivity.
    + apply IH. exact H.
Qed.

(** ** The update of line 126 and 129 *)

Lemma replaceByKeyword_nth (kw : string) (result : Result) (prev : list Result)
    (i : nat) (r : Result) :
  nth_error prev i = Some r ->
  nth_error (replaceByKeyword kw result prev) i =
  Some (if String.eqb (keyword r) kw then result else r).
Proof.
  intros H. unfold replaceByKeyword. rewrite nth_error_map, H. reflexivity.
Qed.

Lemma replaceByKeyword_keywords (kw : string) (result : Result) (prev : list Result) :
  keyword result = kw ->
  map keyword (replaceByKeyword kw result prev) = map keyword prev.
Proof.
  intros Hk. unfold replaceByKeyword. rewrite map_map. apply map_ext.
  intros r. destruct (String.eqb_spec (keyword r) kw); congruence.
Qed.

Lemma replaceByKeyword_In (kw : string) (result r : Result) (prev : list Result) :
  In r (replaceByKeyword kw result prev) ->
  r = result \/ In r prev /\ keyword r <> kw.
Proof.
  unfold replaceByKeyword. rewrite in_map_iff. intros [r0 [H Hin]].
  destruct (String.eqb_spec (keyword r0) kw); subst; auto.
Qed.

(** ** The loop over the keywords *)

Section Batch.

Variable js : Platform.
Variable st : AppState.
Variable net : Network.

Lemma tryKeyword_events (n : nat) (kw : string) :
  fst (tryKeyword js st net n kw) = []
  \/ exists url, requestUrl js st kw = Ret url
                 /\ fst (tryKeyword js st net n kw) = [EvFetch n url].
Proof.
  unfold tryKeyword. destruct (requestUrl js st kw) as [url|m]; simpl.
  - right. now exists url.
  - now left.
Qed.

Lemma forKeywords_cons (n : nat) (kw : string) (rest : list string) (prev : list Result) :
  forKeywords js st net n (kw :: rest) prev =
  let next := replaceByKeyword kw (keywordResult js st net n kw) prev in
  (fst (forKeywords js st net (S n) rest next),
   fst (tryKeyword js st net n kw)
   ++ EvSetResults next :: snd (forKeywords js st net (S n) rest next)).
Proof.
  simpl. destruct (forKeywords js st net (S n) rest _). reflexivity.
Qed.

Lemma states_forKeywords_cons (n : nat) (kw : string) (rest : list string)
    (prev : list Result) :
  states (snd (forKeywords js st net n (kw :: rest) prev)) =
  let next := replaceByKeyword kw (keywordResult js st net n kw) prev in
  next :: states (snd (forKeywords js st net (S n) rest next)).
Proof.
  rewrite forKeywords_cons. simpl. rewrite states_app.
  destruct (tryKeyword_events n kw) as [->|[url [_ ->]]]; reflexivity.
Qed.

(** The final [results] are the last ones set. *)
Lemma forKeywords_final :
  forall kws n prev,
    fst (forKeywords js st net n kws prev) =
    current prev (snd (forKeywords js st net n kws prev)).
Proof.
  induction kws as [|kw rest IH]; intros n prev; [reflexivity|].
  rewrite forKeywords_cons. simpl. rewrite current_app.
  destruct (tryKeyword_events n kw) as [->|[url [_ ->]]]; simpl; apply IH.
Qed.

(** Requests are issued for positions from [n] on, in increasing order. *)
Lemma forKeywords_fetch_order :
  forall kws n prev,
    Forall (fun m => n <= m) (fetch_indices (snd (forKeywords js st net n kws prev)))
    /\ StronglySorted lt (fetch_indices (snd (forKeywords js st net n kws prev))).
Proof.
  induction kws as [|kw rest IH]; intros n prev.
  - simpl. split; constructor.
  - rewrite forKeywords_cons. simpl. rewrite fetch_indices_app. simpl.
    destruct (IH (S n) (replaceByKeyword kw (keywordResult js st net n kw) prev))
      as [Hge Hsorted].
    assert (Hgt : Forall (fun m => n < m)
                    (fetch_indices
                       (snd (forKeywords js st net (S n) rest
                               (replaceByKeyword kw (keywordResult js st net n kw) prev))))).
    { eapply Forall_impl; [|exact Hge]. simpl. intros m Hm. lia. }
    destruct (tryKeyword_events n kw) as [->|[url [_ ->]]]; simpl.
    + split; [|exact Hsorted].
      eapply Forall_impl; [|exact Hgt]. simpl. intros m Hm. lia.
    + split.
      * constructor; [lia|]. eapply Forall_impl; [|exact Hgt]. simpl. intros m Hm. lia.
      * constructor; assumption.
Qed.

Section Invariants.

(** [all] is the whole keyword list, of which the loop at position [n] has
    [skipn n all] left. *)
Variable all : list string.

Lemma step_terminal_at (n : nat) (kw : string) (prev : list Result) :
  map keyword prev = all ->
  nth_error all n = Some kw ->
  (forall j, j < n -> terminal_at prev j) ->
  forall j, j < S n ->
    terminal_at (replaceByKeyword kw (keywordResult js st net n kw) prev) j.
Proof.
  intros Hkeys Hn Hdone j Hj.
  assert (Hrow : exists r, nth_error prev j = Some r
                           /\ (terminal r \/ keyword r = kw)).
  { destruct (Nat.eq_dec j n) as [->|Hne].
    - rewrite <- Hkeys, nth_error_map in Hn.
      destruct (nth_error prev n) as [r|]; [|discriminate].
      injection Hn as Hn. exists r. auto.
    - destruct (Hdone j) as [r [Hr Ht]]; [lia|]. exists r. auto. }
  destruct Hrow as [r [Hr Hcase]].
  unfold terminal_at. rewrite (replaceByKeyword_nth _ _ _ _ _ Hr).
  eexists. split; [reflexivity|].
  destruct (String.eqb_spec (keyword r) kw) as [Heq|Hneq].
  - apply keywordResult_terminal.
  - destruct Hcase; [assumption | contradiction].
Qed.

Lemma forKeywords_at_each_fetch :
  forall kws n prev,
    skipn n all = kws ->
    map keyword prev = all ->
    (forall j, j < n -> terminal_at prev j) ->
    at_each_fetch (fetch_ok js st all) prev (snd (forKeywords js st net n kws prev)).
Proof.
  induction kws as [|kw rest IH]; intros n prev Hleft Hkeys Hdone; [exact I|].
  apply skipn_cons_inv in Hleft. destruct Hleft as [Hn Hleft].
  rewrite forKeywords_cons. simpl.
  assert (Hnext : at_each_fetch (fetch_ok js st all)
                    (replaceByKeyword kw (keywordResult js st net n kw) prev)
                    (snd (forKeywords js st net (S n) rest
                            (replaceByKeyword kw (keywordResult js st net n kw) prev)))).
  { apply IH; [exact Hleft | |].
    - rewrite replaceByKeyword_keywords; [exact Hkeys | apply keywordResult_keyword].
    - apply step_terminal_at; assumption. }
  destruct (tryKeyword_events n kw) as [->|[url [Hurl ->]]]; simpl.
  - exact Hnext.
  - split; [|exact Hnext]. split; [|exact Hdone]. now exists kw.
Qed.

(** The update number [k] of the loop stores, at the row of its keyword,
    the Result of that keyword's own request. *)
Lemma forKeywords_states_nth :
  forall kws n prev k kw,
    skipn n all = kws ->
    map keyword prev = all ->
    nth_error kws k = Some kw ->
    exists rs,
      nth_error (states (snd (forKeywords js st net n kws prev))) k = Some rs
      /\ nth_error rs (n + k) = Some (keywordResult js st net (n + k) kw).
Proof.
  induction kws as [|kw0 rest IH]; intros n prev k kw Hleft Hkeys Hk.
  - destruct k; discriminate.
  - apply skipn_cons_inv in Hleft. destruct Hleft as [Hn Hleft].
    rewrite states_forKeywords_cons. simpl.
    destruct k as [|k]; simpl in *.
    + injection Hk as ->. eexists. split; [reflexivity|].
      rewrite Nat.add_0_r.
      rewrite <- Hkeys, nth_error_map in Hn.
      destruct (nth_error prev n) as [r|] eqn:Hr; [|discriminate].
      injection Hn as Hn.
      rewrite (replaceByKeyword_nth _ _ _ _ _ Hr).
      rewrite Hn, String.eqb_refl. reflexivity.
    + destruct (IH (S n) (replaceByKeyword kw0 (keywordResult js st net n kw0) prev)
                  k kw Hleft) as [rs [H1 H2]]; [|exact Hk|].
      * rewrite replaceByKeyword_keywords; [exact Hkeys | apply keywordResult_keyword].
      * exists rs. split; [exact H1|].
        replace (n + S k) with (S n + k) by lia. exact H2.
Qed.

(** At the end one row per keyword is left, each of them terminal. *)
Lemma forKeywords_final_terminal :
  forall kws n prev,
    skipn n all = kws ->
    map keyword prev = all ->
    (forall j, j < n -> terminal_at prev j) ->
    map keyword (fst (forKeywords js st net n kws prev)) = all
    /\ forall j, j < length all ->
         terminal_at (fst (forKeywords js st net n kws prev)) j.
Proof.
  induction kws as [|kw rest IH]; intros n prev Hleft Hkeys Hdone.
  - simpl. split; [exact Hkeys|]. intros j Hj. apply Hdone.
    apply (f_equal (@length string)) in Hleft. rewrite length_skipn in Hleft.
    simpl in Hleft. lia.
  - apply skipn_cons_inv in Hleft. destruct Hleft as [Hn Hleft].
    rewrite forKeywords_cons. simpl. apply IH; [exact Hleft | |].
    + rewrite replaceByKeyword_keywords; [exact Hkeys | apply keywordResult_keyword].
    + apply step_terminal_at; assumption.
Qed.

End Invariants.

(** A property of the Results that the iterations store, and of the rows at
    the start, holds of every row of every update and of the final rows. *)
Lemma forKeywords_Forall (Q : Result -> Prop) :
  forall kws n prev,
    (forall k kw, nth_error kws k = Some kw -> Q (keywordResult js st net (n + k) kw)) ->
    Forall Q prev ->
    Forall (Forall Q) (states (snd (forKeywords js st net n kws prev)))
    /\ Forall Q (fst (forKeywords js st net n kws prev)).
Proof.
  induction kws as [|kw rest IH]; intros n prev Hstored Hprev.
  - simpl. split; [constructor | exact Hprev].
  - rewrite states_forKeywords_cons, forKeywords_cons. simpl.
    assert (Hnext : Forall Q (replaceByKeyword kw (keywordResult js st net n kw) prev)).
    { rewrite Forall_forall in *. intros r Hr.
      apply replaceByKeyword_In in Hr. destruct Hr as [->|[Hr _]]; [|auto].
      specialize (Hstored 0 kw eq_refl). now rewrite Nat.add_0_r in Hstored. }
    destruct (IH (S n) (replaceByKeyword kw (keywordResult js st net n kw) prev))
      as [H1 H2]; [|exact Hnext|].
    + intros k kw' H. replace (S n + k) with (n + S k) by lia.
      apply (Hstored (S k)). exact H.
    + split; [constructor; assumption | exact H2].
Qed.

(** With distinct keywords left, a terminal row is never replaced. *)
Lemma forKeywords_keeps :
  forall kws n prev,
    NoDup kws ->
    (forall r, In r prev -> terminal r -> ~ In (keyword r) kws) ->
    Forall (keeps prev) (states (snd (forKeywords js st net n kws prev)))
    /\ ForallOrdPairs keeps (states (snd (forKeywords js st net n kws prev))).
Proof.
  induction kws as [|kw rest IH]; intros n prev Hnodup Hfresh.
  - simpl. split; constructor.
  - rewrite states_forKeywords_cons. simpl.
    inversion Hnodup as [|? ? Hnotin Hnodup']; subst.
    set (next := replaceByKeyword kw (keywordResult js st net n kw) prev).
    assert (Hstep : keeps prev next).
    { intros i r Hr Ht. unfold next. rewrite (replaceByKeyword_nth _ _ _ _ _ Hr).
      destruct (String.eqb_spec (keyword r) kw) as [Heq|]; [|reflexivity].
      exfalso. apply (Hfresh r); [eapply nth_error_In; eassumption | exact Ht |].
      left. now symmetry. }
    destruct (IH (S n) next Hnodup') as [Hall Hpairs].
    { intros r Hr Ht Hin. apply replaceByKeyword_In in Hr.
      destruct Hr as [->|[Hr Hne]].
      - rewrite keywordResult_keyword in Hin. contradiction.
      - apply (Hfresh r Hr Ht). now right. }
    split.
    + constructor; [exact Hstep|].
      eapply Forall_impl; [|exact Hall]. simpl.
      intros rs Hrs i r Hr Ht. apply Hrs; [|exact Ht]. now apply Hstep.
    + constructor; assumption.
Qed.

End Batch.

(** ** The handler *)

Section Handler.

Variable js : Platform.

Lemma handleCheck_run (st : AppState) (net : Network) :
  apiKey st <> "" -> cx st <> "" ->
  handleCheck js st net =
  let init := map loadingResult (keywordList st) in
  (with_results st (fst (forKeywords js st net 0 (keywordList st) init)) false,
   EvSetIsLoading true :: EvSetResults init
     :: snd (forKeywords js st net 0 (keywordList st) init) ++ [EvSetIsLoading false]).
Proof.
  intros Hkey Hcx. unfold handleCheck.
  destruct (String.eqb_spec (apiKey st) ""); [contradiction|].
  destruct (String.eqb_spec (cx st) ""); [contradiction|].
  simpl. destruct (forKeywords js st net 0 (keywordList st) _). reflexivity.
Qed.

Lemma loading_keywords (kws : list string) :
  map keyword (map loadingResult kws) = kws.
Proof.
  rewrite map_map. simpl. apply map_id.
Qed.

Lemma loading_not_terminal (kws : list string) (r : Result) :
  In r (map loadingResult kws) -> status r = StLoading.
Proof.
  rewrite in_map_iff. intros [k [<- _]]. reflexivity.
Qed.

Lemma states_forKeywords_length (st : AppState) (net : Network) :
  forall kws n prev,
    length (states (snd (forKeywords js st net n kws prev))) = length kws.
Proof.
  induction kws as [|kw rest IH]; intros n prev; [reflexivity|].
  rewrite states_forKeywords_cons. simpl. now rewrite IH.
Qed.

Lemma handleCheck_alert_only (st : AppState) (net : Network) :
  apiKey st = "" \/ cx st = "" ->
  handleCheck js st net = (st, [EvAlert alertMessage]).
Proof.
  intros H. unfold handleCheck. destruct H as [-> | ->]; simpl; [reflexivity|].
  now rewrite orb_true_r.
Qed.

(** C2: with an empty API key or an empty search-engine identifier the
    handler only raises the configuration alert: the state (and so the
    list of Results) is left as it was, no Result is set and no request is
    issued. *)
Theorem handleCheck_missing_credentials (st : AppState) (net : Network) :
  apiKey st = "" \/ cx st = "" ->
  handleCheck js st net = (st, [EvAlert alertMessage])
  /\ results (fst (handleCheck js st net)) = results st
  /\ states (snd (handleCheck js st net)) = []
  /\ fetch_indices (snd (handleCheck js st net)) = [].
Proof.
  intros H. rewrite (handleCheck_alert_only st net H). repeat split.
Qed.

Lemma keywordResult_local (st : AppState) (net net' : Network) (n : nat) (kw : string) :
  (forall url, net' n url = net n url) ->
  keywordResult js st net' n kw = keywordResult js st net n kw.
Proof.
  intros H. unfold keywordResult, tryKeyword.
  destruct (requestUrl js st kw) as [url|m]; simpl; [|reflexivity].
  now rewrite H.
Qed.

Lemma handleCheck_final_rows (st : AppState) (net : Network) :
  apiKey st <> "" -> cx st <> "" ->
  map keyword (results (fst (handleCheck js st net))) = keywordList st
  /\ Forall (fun r => terminal r /\ own_result js st net (keywordList st) r)
       (results (fst (handleCheck js st net))).
Proof.
  intros Hkey Hcx. rewrite (handleCheck_run st net Hkey Hcx). simpl.
  destruct (forKeywords_final_terminal js st net (keywordList st) (keywordList st) 0
              (map loadingResult (keywordList st)) eq_refl (loading_keywords _))
    as [Hkeys Hterm]; [intros j Hj; lia|].
  split; [exact Hkeys|].
  destruct (forKeywords_Forall js st net (own_result js st net (keywordList st))
              (keywordList st) 0 (map loadingResult (keywordList st))) as [_ Hown].
  { intros k kw Hk. right. exists k. rewrite keywordResult_keyword. simpl. auto. }
  { rewrite Forall_forall. intros r Hr. left.
    apply in_map_iff in Hr. destruct Hr as [k [<- _]]. reflexivity. }
  rewrite Forall_forall in *. intros r Hr. split; [|auto].
  apply In_nth_error in Hr. destruct Hr as [i Hi].
  destruct (Hterm i) as [r' [Hr' Ht]].
  - rewrite <- Hkeys, length_map. apply nth_error_Some. congruence.
  - congruence.
Qed.

End Handler.

(** A run without API key. *)
Lemma handleCheck_missing_credentials_witness :
  handleCheck Demo.js Demo.st_nokey Demo.net3 = (Demo.st_nokey, [EvAlert alertMessage])
  /\ fetch_indices (snd (handleCheck Demo.js Demo.st_nokey Demo.net3)) = [].
Proof.
  destruct (handleCheck_missing_credentials Demo.js Demo.st_nokey Demo.net3)
    as [H1 [_ [_ H2]]]; [left; reflexivity|].
  split; assumption.
Defined.

(** C5, the claim as stated, fails on a list with a repeated keyword: for
    the keywords [a; a], the first request answered with no items and the
    second rejected, the first update sets both rows to not-matched and the
    second update sets both rows to failed. *)
Lemma handleCheck_mutates_terminal_on_duplicates :
  ~ never_mutated_after_terminal (snd (handleCheck Demo.js Demo.st_dup Demo.net_dup)).
Proof.
  intros H.
  pose (ng := {| keyword := "a"; status := StNg; rank := None; domain := None;
                 serp := Some []; error := None |}).
  pose (failed := errorResult "a" "Failed to fetch").
  assert (K : keeps [ng; ng] [failed; failed]).
  { apply (H [EvSetIsLoading true; EvSetResults (map loadingResult ["a"; "a"]);
              EvFetch 0 "https://www.googleapis.com/customsearch/v1?key=KEY&cx=CX&q=a&num=10&gl=jp&hl=ja"]
             [ng; ng]
             [EvFetch 1 "https://www.googleapis.com/customsearch/v1?key=KEY&cx=CX&q=a&num=10&gl=jp&hl=ja"]
             [failed; failed]
             [EvSetIsLoading false]).
    reflexivity. }
  specialize (K 0 ng eq_refl). discriminate K. discriminate.
Qed.

(** ** Export *)

Lemma join_four (sep a b c d : string) :
  join sep [a; b; c; d] = (a ++ sep ++ b ++ sep ++ c ++ sep ++ d)%string.
Proof. reflexivity. Qed.

Lemma exportDisabled_iff (rs : list Result) :
  exportDisabled rs = true <-> exists r, In r rs /\ status r = StLoading.
Proof.
  unfold exportDisabled. rewrite existsb_exists.
  split; intros [r [Hin H]]; exists r; (split; [exact Hin|]).
  - destruct (status r); try discriminate. reflexivity.
  - rewrite H. reflexivity.
Qed.

(** Every row of every update of a run has rank and domain only on a
    match. *)
Lemma handleCheck_rank_iff_ok (js : Platform) (st : AppState) (net : Network)
    (rs : list Result) (r : Result) :
  In rs (states (snd (handleCheck js st net))) -> In r rs -> rank_iff_ok r.
Proof.
  intros Hrs Hr.
  destruct (String.eqb_spec (apiKey st) "") as [Hkey|Hkey];
    [|destruct (String.eqb_spec (cx st) "") as [Hcx|Hcx]].
  - rewrite (handleCheck_alert_only js st net (or_introl Hkey)) in Hrs. destruct Hrs.
  - rewrite (handleCheck_alert_only js st net (or_intror Hcx)) in Hrs. destruct Hrs.
  - rewrite (handleCheck_run js st net Hkey Hcx) in Hrs. simpl in Hrs.
    rewrite states_app in Hrs. simpl in Hrs. rewrite app_nil_r in Hrs.
    assert (Hinit : Forall rank_iff_ok (map loadingResult (keywordList st))).
    { rewrite Forall_forall. intros r0 H0. apply in_map_iff in H0.
      destruct H0 as [k [<- _]]. intros _. split; reflexivity. }
    destruct Hrs as [<-|Hrs].
    + rewrite Forall_forall in Hinit. auto.
    + destruct (forKeywords_Forall js st net rank_iff_ok (keywordList st) 0
                  (map loadingResult (keywordList st))) as [H _]; [|exact Hinit|].
      * intros k kw _. apply keywordResult_rank_iff_ok.
      * rewrite Forall_forall in H. specialize (H rs Hrs).
        rewrite Forall_forall in H. auto.
Qed.

Section CsvExport.

Variable js : Platform.

(** C9: the exported text starts with the header row
    [Keyword,Status,Rank,Domain], followed by one row per Result, each
    after a line feed; a row is the keyword between double quotes, one of
    two status labels (one for a match, the other for everything else),
    the rank and the domain, which are empty when the Result has none, as
    is the case of every Result of a run that is not a match; and the
    export button is disabled exactly when some Result is still loading. *)
Theorem exportToCSV_format (rs : list Result) :
  csvContent rs = ("data:text/csv;charset=utf-8," ++ csvText rs)%string
  /\ csvText [] = "Keyword,Status,Rank,Domain"
  /\ (forall r rest,
        csvText (r :: rest) =
        ("Keyword,Status,Rank,Domain" ++ LF ++ join LF (map csvRow (r :: rest)))%string)
  /\ (forall r,
        csvRow r =
        (DQUOTE ++ keyword r ++ DQUOTE ++ "," ++ statusLabel (status r) ++ ","
         ++ rankCell r ++ "," ++ domainCell r)%string
        /\ (status r = StOk -> statusLabel (status r) = label_ok)
        /\ (status r <> StOk -> statusLabel (status r) = label_other)
        /\ (rank r = None -> rankCell r = "")
        /\ (domain r = None -> domainCell r = ""))
  /\ label_ok <> label_other
  /\ (forall st net rs' r,
        In rs' (states (snd (handleCheck js st net))) -> In r rs' ->
        status r <> StOk ->
        csvRow r = (DQUOTE ++ keyword r ++ DQUOTE ++ "," ++ label_other ++ ",,")%string)
  /\ (exportDisabled rs = true <-> exists r, In r rs /\ status r = StLoading)
  /\ ((exists r, In r rs /\ status r = StLoading) -> clickExport rs = None)
  /\ ((forall r, In r rs -> status r <> StLoading) ->
      clickExport rs = Some (csvContent rs)).
Proof.
  assert (Hrow : forall r,
             csvRow r =
             (DQUOTE ++ keyword r ++ DQUOTE ++ "," ++ statusLabel (status r) ++ ","
              ++ rankCell r ++ "," ++ domainCell r)%string).
  { intros r. unfold csvRow. rewrite join_four. now rewrite !append_assoc. }
  assert (Hother : forall r, status r <> StOk -> statusLabel (status r) = label_other).
  { intros r H. unfold statusLabel. destruct (status r); try reflexivity. congruence. }
  split; [reflexivity|]. split; [reflexivity|]. split; [reflexivity|].
  split; [|split; [discriminate|split; [|split; [apply exportDisabled_iff|split]]]].
  - intros r. split; [apply Hrow|]. split; [|split; [apply Hother|split]].
    + intros ->. reflexivity.
    + unfold rankCell. intros ->. reflexivity.
    + unfold domainCell. intros ->. reflexivity.
  - intros st net rs' r Hrs Hr Hst.
    destruct (handleCheck_rank_iff_ok js st net rs' r Hrs Hr Hst) as [Hrank Hdom].
    rewrite Hrow, (Hother r Hst). unfold rankCell, domainCell.
    rewrite Hrank, Hdom. reflexivity.
  - intros H. apply exportDisabled_iff in H. unfold clickExport. now rewrite H.
  - intros H. unfold clickExport.
    destruct (exportDisabled rs) eqn:E; [|reflexivity].
    apply exportDisabled_iff in E. destruct E as [r [Hin Hl]].
    exfalso. exact (H r Hin Hl).
Qed.

End CsvExport.

(** The button while a Result is loading and after a run, and the row of a
    failed Result. *)
Lemma exportToCSV_format_witness :
  clickExport (map loadingResult ["k1"]) = None
  /\ clickExport (results (fst (handleCheck Demo.js Demo.st3 Demo.net3))) =
     Some (csvContent (results (fst (handleCheck Demo.js Demo.st3 Demo.net3))))
  /\ csvRow (errorResult "k2" "Forbidden") =
     (DQUOTE ++ "k2" ++ DQUOTE ++ "," ++ label_other ++ ",,")%string.
Proof.
  split; [|split].
  - apply (exportToCSV_format Demo.js (map loadingResult ["k1"])).
    exists (loadingResult "k1"). split; [now left | reflexivity].
  - apply (exportToCSV_format Demo.js
             (results (fst (handleCheck Demo.js Demo.st3 Demo.net3)))).
    intros r [<-|[<-|[<-|[]]]]; discriminate.
  - apply (proj1 (proj2 (proj2 (proj2 (proj2 (proj2
             (exportToCSV_format Demo.js []))))))
             Demo.st3 Demo.net3
             (results (fst (handleCheck Demo.js Demo.st3 Demo.net3)))).
    + right. right. right. left. reflexivity.
    + right. left. reflexivity.
    + discriminate.
Defined.

(** ** Splitting and joining *)

Lemma has_unit_app (f : ascii -> bool) (s t : string) :
  has_unit f (s ++ t) = has_unit f s || has_unit f t.
Proof.
  induction s as [|c s IH]; simpl; [reflexivity|].
  now rewrite IH, orb_assoc.
Qed.

Lemma split_not_nil (sep : ascii -> bool) (s : string) : split sep s <> [].
Proof.
  destruct s as [|c s]; simpl; [discriminate|].
  destruct (sep c); [discriminate|].
  destruct (split sep s); discriminate.
Qed.

Lemma split_runs_not_nil (sep : ascii -> bool) (s : string) :
  forall b, split_runs sep b s <> [].
Proof.
  induction s as [|c s IH]; intros b; simpl; [discriminate|].
  destruct (sep c).
  - destruct b; [apply IH | discriminate].
  - destruct (split_runs sep false s); discriminate.
Qed.

(** The pieces of a split hold no separator. *)
Lemma split_pieces (sep : ascii -> bool) (s : string) :
  Forall (fun t => has_unit sep t = false) (split sep s).
Proof.
  induction s as [|c s IH]; simpl.
  - constructor; [reflexivity | constructor].
  - destruct (sep c) eqn:E.
    + constructor; [reflexivity | exact IH].
    + destruct (split sep s) as [|t ts]; [repeat constructor; simpl; now rewrite E|].
      inversion IH; subst. constructor; [simpl; now rewrite E | assumption].
Qed.

Lemma split_runs_pieces (sep : ascii -> bool) (s : string) :
  forall b, Forall (fun t => has_unit sep t = false) (split_runs sep b s).
Proof.
  induction s as [|c s IH]; intros b; simpl.
  - constructor; [reflexivity | constructor].
  - destruct (sep c) eqn:E.
    + destruct b; [apply IH | constructor; [reflexivity | apply IH]].
    + specialize (IH false).
      destruct (split_runs sep false s) as [|t ts];
        [repeat constructor; simpl; now rewrite E|].
      inversion IH; subst. constructor; [simpl; now rewrite E | assumption].
Qed.

Lemma split_app_sep (sep : ascii -> bool) (c : ascii) (x t : string) :
  has_unit sep x = false -> sep c = true ->
  split sep (x ++ String c t) = x :: split sep t.
Proof.
  intros Hx Hc. induction x as [|a x IH]; simpl in *.
  - now rewrite Hc.
  - apply orb_false_iff in Hx. destruct Hx as [Ha Hx].
    rewrite Ha, (IH Hx). reflexivity.
Qed.

Lemma split_one (sep : ascii -> bool) (x : string) :
  has_unit sep x = false -> split sep x = [x].
Proof.
  induction x as [|a x IH]; simpl; [reflexivity|].
  intros H. apply orb_false_iff in H. destruct H as [Ha Hx].
  rewrite Ha, (IH Hx). reflexivity.
Qed.

Lemma split_join (sep : ascii -> bool) (c : ascii) (l : list string) :
  sep c = true -> l <> [] ->
  Forall (fun x => has_unit sep x = false) l ->
  split sep (join (String c "") l) = l.
Proof.
  intros Hc Hne Hl. induction l as [|x l IH]; [contradiction|].
  inversion Hl as [|? ? Hx Hl']; subst.
  destruct l as [|y l].
  - simpl. now apply split_one.
  - change (join (String c "") (x :: y :: l))
      with (x ++ String c (join (String c "") (y :: l)))%string.
    rewrite (split_app_sep sep c x _ Hx Hc), IH; [reflexivity | discriminate | assumption].
Qed.

Lemma split_runs_in_run (sep : ascii -> bool) (a : ascii) (s : string) :
  sep a = false ->
  split_runs sep true (String a s) = split_runs sep false (String a s).
Proof. intros H. simpl. now rewrite H. Qed.

Lemma split_runs_app_sep (sep : ascii -> bool) (c : ascii) (x t : string) :
  has_unit sep x = false -> sep c = true ->
  split_runs sep false (x ++ String c t) = x :: split_runs sep true t.
Proof.
  intros Hx Hc. induction x as [|a x IH]; simpl in *.
  - now rewrite Hc.
  - apply orb_false_iff in Hx. destruct Hx as [Ha Hx].
    rewrite Ha, (IH Hx). reflexivity.
Qed.

Lemma split_runs_one (sep : ascii -> bool) (x : string) :
  has_unit sep x = false -> split_runs sep false x = [x].
Proof.
  induction x as [|a x IH]; simpl; [reflexivity|].
  intros H. apply orb_false_iff in H. destruct H as [Ha Hx].
  rewrite Ha, (IH Hx). reflexivity.
Qed.

Lemma split_runs_join (sep : ascii -> bool) (c : ascii) (l : list string) :
  sep c = true -> l <> [] ->
  Forall (fun x => x <> "" /\ has_unit sep x = false) l ->
  split_runs sep false (join (String c "") l) = l.
Proof.
  intros Hc Hne Hl. induction l as [|x l IH]; [contradiction|].
  inversion Hl as [|? ? [Hx0 Hx] Hl']; subst.
  destruct l as [|y l].
  - simpl. now apply split_runs_one.
  - change (join (String c "") (x :: y :: l))
      with (x ++ String c (join (String c "") (y :: l)))%string.
    rewrite (split_runs_app_sep sep c x _ Hx Hc). f_equal.
    inversion Hl' as [|? ? [Hy0 Hy] _]; subst.
    destruct y as [|a y]; [contradiction|].
    assert (E : exists s, join (String c "") (String a y :: l) = String a s).
    { destruct l; simpl; eexists; reflexivity. }
    destruct E as [s E].
    simpl in Hy. apply orb_false_iff in Hy. destruct Hy as [Ha _].
    rewrite E, (split_runs_in_run sep a s Ha), <- E.
    apply IH; [discriminate | assumption].
Qed.

Lemma filter_all {A : Type} (f : A -> bool) (l : list A) :
  Forall (fun x => f x = true) l -> filter f l = l.
Proof.
  induction 1 as [|x l Hx _ IH]; simpl; [reflexivity|]. now rewrite Hx, IH.
Qed.

Lemma is_LF_LF : is_LF (ascii_of_nat 10) = true.
Proof. reflexivity. Qed.

Lemma is_LF_or_comma_LF : is_LF_or_comma (ascii_of_nat 10) = true.
Proof. reflexivity. Qed.

Section Memos.

Variable js : Platform.

Lemma nonblank_nonempty (k : string) : trim js k <> "" -> k <> "".
Proof. intros H ->. apply H. reflexivity. Qed.

Lemma nonblank_filter (l : list string) :
  Forall (fun k => trim js k <> "") l ->
  filter (fun k => negb (String.eqb (trim js k) "")) l = l.
Proof.
  intros H. apply filter_all. eapply Forall_impl; [|exact H]. simpl.
  intros k Hk. destruct (String.eqb_spec (trim js k) ""); [contradiction | reflexivity].
Qed.

Lemma keywordListOf_join (l : list string) :
  Forall (fun k => trim js k <> "" /\ has_unit is_LF k = false) l ->
  keywordListOf js (join LF l) = l.
Proof.
  intros H. unfold keywordListOf. destruct l as [|x l]; [reflexivity|].
  unfold LF. rewrite (split_join is_LF _ (x :: l) is_LF_LF); [|discriminate|].
  - apply nonblank_filter. eapply Forall_impl; [|exact H]. simpl. tauto.
  - eapply Forall_impl; [|exact H]. simpl. tauto.
Qed.

Lemma qaDomainListOf_join (l : list string) :
  Forall (fun d => trim js d <> "" /\ has_unit is_LF_or_comma d = false) l ->
  qaDomainListOf js (join LF l) = l.
Proof.
  intros H. unfold qaDomainListOf. destruct l as [|x l]; [reflexivity|].
  unfold LF.
  rewrite (split_runs_join is_LF_or_comma _ (x :: l) is_LF_or_comma_LF); [|discriminate|].
  - apply nonblank_filter. eapply Forall_impl; [|exact H]. simpl. tauto.
  - eapply Forall_impl; [|exact H]. simpl. intros d [Hd1 Hd2].
    split; [now apply nonblank_nonempty | exact Hd2].
Qed.

Lemma keywordListOf_entries (keywords : string) :
  Forall (fun k => trim js k <> "" /\ has_unit is_LF k = false)
    (keywordListOf js keywords).
Proof.
  unfold keywordListOf. rewrite Forall_forall. intros k Hk.
  apply filter_In in Hk. destruct Hk as [Hin Hk]. split.
  - destruct (String.eqb_spec (trim js k) ""); [discriminate | assumption].
  - pose proof (split_pieces is_LF keywords) as H.
    rewrite Forall_forall in H. now apply H.
Qed.

Lemma qaDomainListOf_entries (qaDomains : string) :
  Forall (fun d => trim js d <> "" /\ has_unit is_LF_or_comma d = false)
    (qaDomainListOf js qaDomains).
Proof.
  unfold qaDomainListOf. rewrite Forall_forall. intros k Hk.
  apply filter_In in Hk. destruct Hk as [Hin Hk]. split.
  - destruct (String.eqb_spec (trim js k) ""); [discriminate | assumption].
  - pose proof (split_runs_pieces is_LF_or_comma qaDomains false) as H.
    rewrite Forall_forall in H. now apply H.
Qed.

(** X1: every keyword of the memoised list is non-blank and holds no line
    feed, and every pattern of the memoised pattern list is non-blank and
    holds neither a line feed nor a comma, whatever text the fields hold. *)
Theorem memo_entries (keywords qaDomains : string) :
  Forall (fun k => trim js k <> "" /\ k <> "" /\ has_unit is_LF k = false)
    (keywordListOf js keywords)
  /\ Forall (fun d => trim js d <> "" /\ d <> "" /\ has_unit is_LF_or_comma d = false)
       (qaDomainListOf js qaDomains).
Proof.
  split.
  - eapply Forall_impl; [|apply keywordListOf_entries]. simpl.
    intros k [H1 H2]. repeat split; try assumption. now apply nonblank_nonempty.
  - eapply Forall_impl; [|apply qaDomainListOf_entries]. simpl.
    intros k [H1 H2]. repeat split; try assumption. now apply nonblank_nonempty.
Qed.

(** X2: a keyword field that holds non-blank keywords without line feed,
    one per line, gives back exactly these keywords, in order and with
    their repetitions. *)
Theorem keywordListOf_round_trip (l : list string) :
  Forall (fun k => trim js k <> "" /\ has_unit is_LF k = false) l ->
  keywordListOf js (join LF l) = l.
Proof. apply keywordListOf_join. Qed.

(** X3: a pattern field that holds non-blank patterns without line feed
    and comma, one per line, gives back exactly these patterns. *)
Theorem qaDomainListOf_round_trip (l : list string) :
  Forall (fun d => trim js d <> "" /\ has_unit is_LF_or_comma d = false) l ->
  qaDomainListOf js (join LF l) = l.
Proof. apply qaDomainListOf_join. Qed.

(** X4: writing the memoised pattern list back into the field, one pattern
    per line (what a reload does with the saved list), leaves the pattern
    list as it is. *)
Theorem qaDomainListOf_stable (qaDomains : string) :
  qaDomainListOf js (join LF (qaDomainListOf js qaDomains)) =
  qaDomainListOf js qaDomains.
Proof. apply qaDomainListOf_join, qaDomainListOf_entries. Qed.

End Memos.

(** Two keywords with surrounding blanks, on the concrete platform. *)
Lemma keywordListOf_round_trip_witness :
  keywordListOf Demo.js (join LF [" k1 "; "k2"; "k2"]) = [" k1 "; "k2"; "k2"].
Proof.
  apply (keywordListOf_round_trip Demo.js [" k1 "; "k2"; "k2"]).
  repeat constructor; discriminate.
Defined.

(** The default patterns, on the concrete platform. *)
Lemma qaDomainListOf_round_trip_witness :
  qaDomainListOf Demo.js (join LF defaultQADomains) = defaultQADomains.
Proof.
  apply (qaDomainListOf_round_trip Demo.js defaultQADomains).
  repeat constructor; discriminate.
Defined.

(** ** Local storage *)

Section Settings.

Variable env : StoragePlatform.

(** X5: a value that was saved is loaded back: when [JSON.stringify] gives
    a non-empty text that [JSON.parse] reads back as the value, and the
    storage does not throw, [loadLocal] after [saveLocal] on the same key
    returns the value and logs nothing, whatever the default. *)
Theorem saveLocal_loadLocal (s : Storage) (key text : string) (v d : value) :
  JSON_stringify env v = Ret text ->
  text <> "" ->
  JSON_parse env text = Ret v ->
  setItem_error env s key text = None ->
  getItem_error env (fst (saveLocal env s key v)) key = None ->
  loadLocal env (fst (saveLocal env s key v)) key d = (v, None).
Proof.
  intros Hs Hne Hp Hset. unfold saveLocal, setItem. rewrite Hs. simpl.
  rewrite Hset. simpl. intros Hget.
  unfold loadLocal, getItem. rewrite Hget. simpl.
  rewrite String.eqb_refl.
  destruct (String.eqb_spec text ""); [contradiction|].
  now rewrite Hp.
Qed.

(** X6: [saveLocal] never throws and touches one key only: the items under
    the other keys are as before; when it logs an exception the storage is
    as before; and when it logs none the key holds the text of the
    value. *)
Theorem saveLocal_frame (s : Storage) (key : string) (v : value) :
  (forall k, k <> key -> fst (saveLocal env s key v) k = s k)
  /\ (forall m, snd (saveLocal env s key v) = Some m ->
                fst (saveLocal env s key v) = s)
  /\ (snd (saveLocal env s key v) = None ->
      exists text, JSON_stringify env v = Ret text
                   /\ fst (saveLocal env s key v) key = Some text).
Proof.
  unfold saveLocal, setItem.
  destruct (JSON_stringify env v) as [text|m]; simpl.
  - destruct (setItem_error env s key text) as [m|]; simpl.
    + repeat split; [discriminate].
    + split; [|split; [discriminate|]].
      * intros k Hk. destruct (String.eqb_spec k key); [contradiction | reflexivity].
      * intros _. exists text. now rewrite String.eqb_refl.
  - repeat split; discriminate.
Qed.

(** X7: [loadLocal] never throws.  It returns the default when the access
    to the storage throws, when the key is absent, when the item is the
    empty string and when the item is not JSON (an exception is logged in
    the first and the last case); otherwise it returns the parsed item. *)
Theorem loadLocal_cases (s : Storage) (key : string) (d : value) :
  (forall m, getItem_error env s key = Some m ->
             loadLocal env s key d = (d, Some m))
  /\ (getItem_error env s key = None ->
      (s key = None -> loadLocal env s key d = (d, None))
      /\ (s key = Some "" -> loadLocal env s key d = (d, None))
      /\ (forall text m, s key = Some text -> text <> "" ->
                         JSON_parse env text = Throw m ->
                         loadLocal env s key d = (d, Some m))
      /\ (forall text v, s key = Some text -> text <> "" ->
                         JSON_parse env text = Ret v ->
                         loadLocal env s key d = (v, None))).
Proof.
  unfold loadLocal, getItem. split.
  - intros m ->. reflexivity.
  - intros ->. simpl. repeat split.
    + intros ->. reflexivity.
    + intros ->. reflexivity.
    + intros text m -> Hne Hp.
      destruct (String.eqb_spec text ""); [contradiction|]. now rewrite Hp.
    + intros text v -> Hne Hp.
      destruct (String.eqb_spec text ""); [contradiction|]. now rewrite Hp.
Qed.

Variable js : Platform.

Lemma array_join_strings (sep : string) (l : list string) :
  array_join js sep (VArr (map VStr l)) = Some (join sep l).
Proof.
  unfold array_join. rewrite map_map. simpl. now rewrite map_id.
Qed.

(** X8: the pattern list survives a reload: after the effect has saved
    the memoised pattern list, the next start fills the pattern field with
    a text whose pattern list is the same list (when the storage does not
    throw and [JSON.parse] reads back what [JSON.stringify] wrote). *)
Theorem domains_survive_reload (s : Storage) (qaDomains text : string) :
  JSON_stringify env (VArr (map VStr (qaDomainListOf js qaDomains))) = Ret text ->
  text <> "" ->
  JSON_parse env text = Ret (VArr (map VStr (qaDomainListOf js qaDomains))) ->
  setItem_error env s "qa_checker_domains" text = None ->
  getItem_error env (fst (saveDomains env s (qaDomainListOf js qaDomains)))
    "qa_checker_domains" = None ->
  exists field,
    initialQaDomains js env (fst (saveDomains env s (qaDomainListOf js qaDomains)))
    = Some field
    /\ qaDomainListOf js field = qaDomainListOf js qaDomains.
Proof.
  intros Hs Hne Hp Hset Hget.
  exists (join LF (qaDomainListOf js qaDomains)). split.
  - unfold initialQaDomains, saveDomains in *.
    unfold saveLocal, setItem in *. rewrite Hs in *. simpl in *.
    rewrite Hset in *. simpl in *.
    unfold loadLocal, getItem. rewrite Hget. simpl.
    destruct (String.eqb_spec text ""); [contradiction|].
    rewrite Hp. simpl. rewrite map_map. simpl. now rewrite map_id.
  - apply qaDomainListOf_join, qaDomainListOf_entries.
Qed.

End Settings.

(** The API key [KEY], on the concrete storage platform. *)
Lemma saveLocal_loadLocal_witness :
  loadLocal DemoStore.env
    (fst (saveLocal DemoStore.env DemoStore.empty "qa_checker_api_key" (VStr "KEY")))
    "qa_checker_api_key" (VStr "") = (VStr "KEY", None).
Proof.
  apply (saveLocal_loadLocal DemoStore.env DemoStore.empty "qa_checker_api_key"
           (DQUOTE ++ "KEY" ++ DQUOTE) (VStr "KEY") (VStr ""));
    try reflexivity.
  discriminate.
Defined.

(** A saved item that is not JSON, and an absent key. *)
Lemma loadLocal_cases_witness :
  loadLocal DemoStore.env
    (fun k => if String.eqb k "qa_checker_cx" then Some "{oops" else None)
    "qa_checker_cx" (VStr "") = (VStr "", Some "Unexpected token")
  /\ loadLocal DemoStore.env DemoStore.empty "qa_checker_cx" (VStr "") = (VStr "", None).
Proof.
  split.
  - destruct (proj2 (loadLocal_cases DemoStore.env
                       (fun k => if String.eqb k "qa_checker_cx" then Some "{oops" else None)
                       "qa_checker_cx" (VStr "")) eq_refl) as [_ [_ [H _]]].
    apply (H "{oops" "Unexpected token"); [reflexivity | discriminate | reflexivity].
  - destruct (proj2 (loadLocal_cases DemoStore.env DemoStore.empty
                       "qa_checker_cx" (VStr "")) eq_refl) as [H _].
    apply H. reflexivity.
Defined.

(** A field with blanks, commas and empty lines, on the concrete
    platforms. *)
Lemma domains_survive_reload_witness :
  exists field,
    initialQaDomains Demo.js DemoStore.env
      (fst (saveDomains DemoStore.env DemoStore.empty
              (qaDomainListOf Demo.js "a.com, b.com,,c.com")))
    = Some field
    /\ qaDomainListOf Demo.js field = ["a.com"; " b.com"; "c.com"].
Proof.
  apply (domains_survive_reload DemoStore.env Demo.js DemoStore.empty
           "a.com, b.com,,c.com"
           (DemoStore.stringify (VArr (map VStr ["a.com"; " b.com"; "c.com"]))));
    try reflexivity.
  discriminate.
Defined.

(** ** The expanded rows *)

Lemma set_has_delete (k x : string) (s : list string) :
  set_has x (set_delete k s) = negb (String.eqb x k) && set_has x s.
Proof.
  unfold set_has, set_delete. induction s as [|y s IH]; simpl.
  - now rewrite andb_false_r.
  - destruct (String.eqb_spec y k) as [->|Hy]; simpl.
    + rewrite IH. destruct (String.eqb_spec x k); simpl; [reflexivity|].
      reflexivity.
    + rewrite IH. destruct (String.eqb_spec x y) as [->|Hxy]; simpl.
      * destruct (String.eqb_spec y k); [contradiction | reflexivity].
      * reflexivity.
Qed.

Lemma set_has_add (k x : string) (s : list string) :
  set_has x (set_add k s) = String.eqb x k || set_has x s.
Proof.
  unfold set_add. destruct (set_has k s) eqn:E.
  - destruct (String.eqb_spec x k) as [->|]; [now rewrite E | reflexivity].
  - unfold set_has. rewrite existsb_app. simpl.
    rewrite orb_false_r. apply orb_comm.
Qed.

Lemma set_has_toggle (kw x : string) (s : list string) :
  set_has x (toggleExpand kw s) =
  if String.eqb x kw then negb (set_has kw s) else set_has x s.
Proof.
  unfold toggleExpand. destruct (set_has kw s) eqn:E.
  - rewrite set_has_delete. destruct (String.eqb_spec x kw); reflexivity.
  - rewrite set_has_add. destruct (String.eqb_spec x kw) as [->|]; [|reflexivity].
    reflexivity.
Qed.

(** X9: toggling a keyword flips whether that keyword is expanded and
    leaves every other keyword as it is; toggling it twice leaves every
    keyword as it was. *)
Theorem toggleExpand_flips (kw : string) (expandedKeywords : list string) :
  set_has kw (toggleExpand kw expandedKeywords) = negb (set_has kw expandedKeywords)
  /\ (forall x, x <> kw ->
        set_has x (toggleExpand kw expandedKeywords) = set_has x expandedKeywords)
  /\ (forall x,
        set_has x (toggleExpand kw (toggleExpand kw expandedKeywords)) =
        set_has x expandedKeywords).
Proof.
  split; [|split].
  - rewrite set_has_toggle. now rewrite String.eqb_refl.
  - intros x Hx. rewrite set_has_toggle.
    destruct (String.eqb_spec x kw); [contradiction | reflexivity].
  - intros x. rewrite !set_has_toggle.
    destruct (String.eqb_spec x kw) as [->|]; [|reflexivity].
    rewrite String.eqb_refl. apply negb_involutive.
Qed.

(** ** The Results of a run *)

Section RunResults.

Variable js : Platform.
Variable st : AppState.

Lemma scan_sound (kw : string) (all : list SerpItem) :
  forall rest i r,
    scan js st kw all i rest = Some r ->
    exists k item,
      nth_error rest k = Some item
      /\ hostMatches js st item = true
      /\ (forall j other, j < k -> nth_error rest j = Some other ->
                          hostMatches js st other = false)
      /\ r = {| keyword := kw; status := StOk; rank := Some (i + k + 1);
                domain := Some (hostnameOf js (link item)); serp := Some all;
                error := None |}.
Proof.
  induction rest as [|x rest IH]; intros i r; simpl; [discriminate|].
  fold (hostMatches js st x). destruct (hostMatches js st x) eqn:E.
  - intros [= <-]. exists 0, x. repeat split; try assumption.
    + intros j other Hj. lia.
    + now rewrite Nat.add_0_r.
  - intros H. apply IH in H. destruct H as [k [item [H1 [H2 [H3 H4]]]]].
    exists (S k), item. repeat split; try assumption.
    + intros j other Hj Hnth. destruct j as [|j]; simpl in Hnth.
      * now injection Hnth as <-.
      * apply (H3 j); [lia | exact Hnth].
    + rewrite H4. do 3 f_equal. lia.
Qed.

Lemma scan_none_inv (kw : string) (all : list SerpItem) :
  forall rest i,
    scan js st kw all i rest = None ->
    forall item, In item rest -> hostMatches js st item = false.
Proof.
  induction rest as [|x rest IH]; intros i H item Hin; [destruct Hin|].
  simpl in H. fold (hostMatches js st x) in H.
  destruct (hostMatches js st x) eqn:E; [discriminate|].
  destruct Hin as [<-|Hin]; [exact E | eapply IH; eassumption].
Qed.

Lemma classify_fields (kw : string) (all : list SerpItem) :
  fields_by_status js st (classify js st kw all).
Proof.
  unfold classify. destruct (scan js st kw all 0 all) as [r|] eqn:E.
  - apply scan_sound in E. destruct E as [k [item [H1 [H2 [H3 ->]]]]].
    unfold fields_by_status. simpl. exists k, item, all. repeat split; assumption.
  - unfold fields_by_status. simpl. repeat split.
    exists all. split; [reflexivity|]. eapply scan_none_inv; eassumption.
Qed.

Lemma keywordResult_fields (net : Network) (n : nat) (kw : string) :
  fields_by_status js st (keywordResult js st net n kw).
Proof.
  destruct (keywordResult_cases js st net n kw) as [[all ->]|[m ->]].
  - apply classify_fields.
  - unfold fields_by_status. simpl. repeat split. now exists m.
Qed.

(** What holds of a loading Result and of every Result that an iteration
    stores holds of every row of every update of a run, and of the rows
    that the run leaves. *)
Lemma handleCheck_rows (net : Network) (Q : Result -> Prop) :
  (forall k, Q (loadingResult k)) ->
  (forall n kw, Q (keywordResult js st net n kw)) ->
  (forall rs r, In rs (states (snd (handleCheck js st net))) -> In r rs -> Q r)
  /\ (apiKey st <> "" -> cx st <> "" ->
      Forall Q (results (fst (handleCheck js st net)))).
Proof.
  intros Hload Hstored.
  assert (Hinit : Forall Q (map loadingResult (keywordList st))).
  { rewrite Forall_forall. intros r0 H0. apply in_map_iff in H0.
    destruct H0 as [k [<- _]]. apply Hload. }
  destruct (forKeywords_Forall js st net Q (keywordList st) 0
              (map loadingResult (keywordList st))) as [Hstates Hfinal];
    [intros; apply Hstored | exact Hinit |].
  split.
  - intros rs r Hrs Hr.
    destruct (String.eqb_spec (apiKey st) "") as [Hkey|Hkey];
      [|destruct (String.eqb_spec (cx st) "") as [Hcx|Hcx]].
    + rewrite (handleCheck_alert_only js st net (or_introl Hkey)) in Hrs. destruct Hrs.
    + rewrite (handleCheck_alert_only js st net (or_intror Hcx)) in Hrs. destruct Hrs.
    + rewrite (handleCheck_run js st net Hkey Hcx) in Hrs. simpl in Hrs.
      rewrite states_app in Hrs. simpl in Hrs. rewrite app_nil_r in Hrs.
      destruct Hrs as [<-|Hrs].
      * rewrite Forall_forall in Hinit. auto.
      * rewrite Forall_forall in Hstates. specialize (Hstates rs Hrs).
        rewrite Forall_forall in Hstates. auto.
  - intros Hkey Hcx. rewrite (handleCheck_run js st net Hkey Hcx). exact Hfinal.
Qed.

Lemma loadingResult_fields (k : string) : fields_by_status js st (loadingResult k).
Proof. unfold fields_by_status. simpl. repeat split. Qed.


(** X11: in every update of a run, a matched row shows its expand toggle,
    and a failed or loading row does not; so the error text of a failed
    row, which is rendered inside the expanded area, can only be seen when
    the keyword is already among the expanded ones. *)
Theorem failed_rows_show_no_toggle (net : Network) (rs : list Result) (r : Result) :
  In rs (states (snd (handleCheck js st net))) -> In r rs ->
  (status r = StOk -> showsToggle r = true)
  /\ (status r = StError -> showsToggle r = false)
  /\ (status r = StLoading -> showsToggle r = false)
  /\ (forall expandedKeywords,
        showsErrorText expandedKeywords r = true ->
        showsToggle r = false /\ set_has (keyword r) expandedKeywords = true).
Proof.
  intros Hrs Hr.
  pose proof (proj1 (handleCheck_rows net (fields_by_status js st)
                       loadingResult_fields (keywordResult_fields net))
                rs r Hrs Hr) as H.
  unfold fields_by_status in H. unfold showsToggle, showsErrorText.
  destruct (status r) eqn:E.
  - destruct H as [_ [_ [H _]]]. rewrite H.
    split; [discriminate | split; [discriminate | split; [reflexivity|]]].
    intros e He. simpl in He. rewrite andb_false_r in He. discriminate.
  - destruct H as [k [item [all [_ [H [_ [Hnth _]]]]]]]. rewrite H.
    assert (0 < length all) by (apply Nat.le_lt_trans with k; [lia|];
                                apply nth_error_Some; congruence).
    split; [|split; [discriminate | split; [discriminate|]]].
    + intros _. now apply Nat.ltb_lt.
    + intros e He. simpl in He. rewrite andb_false_r in He. discriminate.
  - split; [discriminate | split; [discriminate | split; [discriminate|]]].
    intros e He. simpl in He. rewrite andb_false_r in He. discriminate.
  - destruct H as [_ [_ [H _]]]. rewrite H.
    split; [discriminate | split; [reflexivity | split; [discriminate|]]].
    intros e He. apply andb_true_iff in He. split; [reflexivity | apply He].
Qed.

(** X12: when a run with credentials is over, the loading flag is off, no
    row is loading, so that the export is enabled, and the check button is
    disabled only for an empty keyword list, whatever the network
    answered. *)
Theorem handleCheck_leaves_controls_enabled (net : Network) :
  apiKey st <> "" -> cx st <> "" ->
  isLoading (fst (handleCheck js st net)) = false
  /\ exportDisabled (results (fst (handleCheck js st net))) = false
  /\ clickExport (results (fst (handleCheck js st net))) =
     Some (csvContent (results (fst (handleCheck js st net))))
  /\ checkDisabled (fst (handleCheck js st net)) =
     (length (keywordList st) =? 0)%nat.
Proof.
  intros Hkey Hcx.
  assert (E : exportDisabled (results (fst (handleCheck js st net))) = false).
  { destruct (exportDisabled _) eqn:E; [|reflexivity].
    apply exportDisabled_iff in E. destruct E as [r [Hin Hl]].
    destruct (handleCheck_final_rows js st net Hkey Hcx) as [_ H].
    rewrite Forall_forall in H. destruct (H r Hin) as [Ht _]. contradiction. }
  split; [|split; [exact E | split]].
  - now rewrite (handleCheck_run js st net Hkey Hcx).
  - unfold clickExport. now rewrite E.
  - now rewrite (handleCheck_run js st net Hkey Hcx).
Qed.

End RunResults.


(** The failed row of the run over three keywords. *)
Lemma failed_rows_show_no_toggle_witness :
  showsToggle (errorResult "k2" "Forbidden") = false.
Proof.
  destruct (failed_rows_show_no_toggle Demo.js Demo.st3 Demo.net3
              (results (fst (handleCheck Demo.js Demo.st3 Demo.net3)))
              (errorResult "k2" "Forbidden")) as [_ [H _]].
  - right. right. right. left. reflexivity.
  - right. left. reflexivity.
  - apply H. reflexivity.
Defined.

(** After the run over three keywords, one of which failed. *)
Lemma handleCheck_leaves_controls_enabled_witness :
  exportDisabled (results (fst (handleCheck Demo.js Demo.st3 Demo.net3))) = false
  /\ checkDisabled (fst (handleCheck Demo.js Demo.st3 Demo.net3)) = false.
Proof.
  destruct (handleCheck_leaves_controls_enabled Demo.js Demo.st3 Demo.net3)
    as [_ [H1 [_ H2]]]; try discriminate.
  split; assumption.
Defined.

(** ** The course of a run *)

Lemma last_index_spec (k : string) (l : list string) :
  match last_index k l with
  | Some q => nth_error l q = Some k /\ forall j, q < j -> nth_error l j <> Some k
  | None => ~ In k l
  end.
Proof.
  induction l as [|x l IH]; simpl; [tauto|].
  destruct (last_index k l) as [q|].
  - destruct IH as [H1 H2]. split; [exact H1|].
    intros j Hj. destruct j as [|j]; [lia|]. simpl. apply H2. lia.
  - destruct (String.eqb_spec x k) as [->|Hne].
    + split; [reflexivity|]. intros j Hj. destruct j as [|j]; [lia|]. simpl.
      intros H. apply IH. eapply nth_error_In. exact H.
    + intros [H|H]; [contradiction | now apply IH].
Qed.

Section Course.

Variable js : Platform.
Variable st : AppState.
Variable net : Network.

Section Distinct.

Variable all : list string.
Hypothesis all_distinct : NoDup all.

Lemma step_keeps_other_rows (n : nat) (kw : string) (prev : list Result) :
  map keyword prev = all ->
  nth_error all n = Some kw ->
  forall i r, i <> n -> nth_error prev i = Some r ->
    nth_error (replaceByKeyword kw (keywordResult js st net n kw) prev) i = Some r.
Proof.
  intros Hkeys Hn i r Hi Hr. rewrite (replaceByKeyword_nth _ _ _ _ _ Hr).
  destruct (String.eqb_spec (keyword r) kw) as [Heq|]; [|reflexivity].
  exfalso. apply Hi.
  assert (Hi' : nth_error all i = Some kw).
  { rewrite <- Hkeys, nth_error_map, Hr. simpl. now rewrite Heq. }
  apply (proj1 (NoDup_nth_error all) all_distinct).
  - apply nth_error_Some. congruence.
  - congruence.
Qed.

(** With distinct keywords, the update number [j] of the loop leaves the
    rows after position [n + j] as they were. *)
Lemma forKeywords_pending :
  forall kws n prev,
    skipn n all = kws ->
    map keyword prev = all ->
    forall j rs,
      nth_error (states (snd (forKeywords js st net n kws prev))) j = Some rs ->
      forall i r, n + j < i -> nth_error prev i = Some r -> nth_error rs i = Some r.
Proof.
  induction kws as [|kw rest IH]; intros n prev Hleft Hkeys j rs Hj i r Hi Hr.
  - destruct j; discriminate.
  - apply skipn_cons_inv in Hleft. destruct Hleft as [Hn Hleft].
    rewrite states_forKeywords_cons in Hj. simpl in Hj.
    assert (Hnext : nth_error (replaceByKeyword kw (keywordResult js st net n kw) prev) i
                    = Some r).
    { apply step_keeps_other_rows; try assumption. lia. }
    destruct j as [|j]; simpl in Hj.
    + now injection Hj as <-.
    + assert (Hkeys' : map keyword
                         (replaceByKeyword kw (keywordResult js st net n kw) prev) = all).
      { rewrite replaceByKeyword_keywords; [exact Hkeys | apply keywordResult_keyword]. }
      apply (IH (S n) _ Hleft Hkeys' j rs Hj i r); [lia | exact Hnext].
Qed.

End Distinct.

(** X13: with pairwise distinct keywords, the export stays blocked until
    the last keyword is resolved: in the update number [t] of a run (the
    initial one being number 0) the row of the keyword at position [t] is
    still loading, so the export button is disabled. *)
Theorem export_blocked_until_last_update (t : nat) (rs : list Result) (k : string) :
  NoDup (keywordList st) ->
  nth_error (states (snd (handleCheck js st net))) t = Some rs ->
  nth_error (keywordList st) t = Some k ->
  nth_error rs t = Some (loadingResult k)
  /\ exportDisabled rs = true
  /\ clickExport rs = None.
Proof.
  intros Hnodup Hrs Hk.
  assert (Hrow : nth_error rs t = Some (loadingResult k)).
  { destruct (String.eqb_spec (apiKey st) "") as [Hkey|Hkey];
      [|destruct (String.eqb_spec (cx st) "") as [Hcx|Hcx]].
    - rewrite (handleCheck_alert_only js st net (or_introl Hkey)) in Hrs.
      destruct t; discriminate.
    - rewrite (handleCheck_alert_only js st net (or_intror Hcx)) in Hrs.
      destruct t; discriminate.
    - rewrite (handleCheck_run js st net Hkey Hcx) in Hrs. simpl in Hrs.
      rewrite states_app in Hrs. simpl in Hrs. rewrite app_nil_r in Hrs.
      assert (Hinit : nth_error (map loadingResult (keywordList st)) t
                      = Some (loadingResult k)).
      { rewrite nth_error_map, Hk. reflexivity. }
      destruct t as [|j]; simpl in Hrs.
      + now injection Hrs as <-.
      + apply (forKeywords_pending (keywordList st) Hnodup (keywordList st) 0
                 (map loadingResult (keywordList st)) eq_refl
                 (loading_keywords _) j rs Hrs (S j)); [lia | exact Hinit]. }
  assert (E : exportDisabled rs = true).
  { apply exportDisabled_iff. exists (loadingResult k).
    split; [eapply nth_error_In; exact Hrow | reflexivity]. }
  split; [exact Hrow | split; [exact E|]].
  unfold clickExport. now rewrite E.
Qed.

(** A row ends as the Result of the last keyword of the loop that has its
    text, or as it was when there is none. *)
Lemma forKeywords_last :
  forall kws n prev i r,
    nth_error prev i = Some r ->
    nth_error (fst (forKeywords js st net n kws prev)) i =
    Some (match last_index (keyword r) kws with
          | Some q => keywordResult js st net (n + q) (keyword r)
          | None => r
          end).
Proof.
  induction kws as [|kw rest IH]; intros n prev i r Hr; [exact Hr|].
  rewrite forKeywords_cons. simpl fst.
  rewrite (IH (S n) _ i _ (replaceByKeyword_nth _ _ _ _ _ Hr)).
  simpl last_index.
  destruct (String.eqb_spec (keyword r) kw) as [Heq|Hne].
  - rewrite keywordResult_keyword, <- Heq.
    destruct (last_index (keyword r) rest) as [q|].
    + do 2 f_equal. lia.
    + rewrite String.eqb_refl, Nat.add_0_r. reflexivity.
  - destruct (last_index (keyword r) rest) as [q|].
    + do 2 f_equal. lia.
    + destruct (String.eqb_spec kw (keyword r)); [congruence | reflexivity].
Qed.

(** X14: when a keyword text occurs more than once in the list, all its
    rows end with the Result of its last occurrence: the row at position
    [i], of keyword [k], ends as the Result of the request for the last
    position [q] that holds [k]. *)
Theorem handleCheck_last_occurrence_wins (i : nat) (k : string) :
  apiKey st <> "" -> cx st <> "" ->
  nth_error (keywordList st) i = Some k ->
  exists q,
    nth_error (keywordList st) q = Some k
    /\ (forall j, q < j -> nth_error (keywordList st) j <> Some k)
    /\ nth_error (results (fst (handleCheck js st net))) i =
       Some (keywordResult js st net q k).
Proof.
  intros Hkey Hcx Hi.
  pose proof (last_index_spec k (keywordList st)) as Hspec.
  destruct (last_index k (keywordList st)) as [q|] eqn:E.
  - exists q. destruct Hspec as [H1 H2]. split; [exact H1 | split; [exact H2|]].
    rewrite (handleCheck_run js st net Hkey Hcx). simpl.
    rewrite (forKeywords_last (keywordList st) 0 _ i (loadingResult k)).
    + simpl. now rewrite E.
    + rewrite nth_error_map, Hi. reflexivity.
  - exfalso. apply Hspec. eapply nth_error_In. exact Hi.
Qed.

Lemma tryKeyword_fetch_indices (n : nat) (kw : string) :
  fetch_indices (fst (tryKeyword js st net n kw)) =
  if encodes js kw then [n] else [].
Proof.
  unfold tryKeyword, requestUrl, encodes.
  destruct (encodeURIComponent js kw); reflexivity.
Qed.

Lemma forKeywords_fetch_indices :
  forall kws n prev,
    fetch_indices (snd (forKeywords js st net n kws prev)) =
    map fst (filter (fun p => encodes js (snd p)) (combine (seq n (length kws)) kws)).
Proof.
  induction kws as [|kw rest IH]; intros n prev; [reflexivity|].
  rewrite forKeywords_cons. simpl. rewrite fetch_indices_app. simpl.
  rewrite tryKeyword_fetch_indices, IH.
  destruct (encodes js kw); reflexivity.
Qed.

Lemma encoded_positions_all :
  forall kws n,
    Forall (fun kw => encodes js kw = true) kws ->
    map fst (filter (fun p => encodes js (snd p)) (combine (seq n (length kws)) kws)) =
    seq n (length kws).
Proof.
  induction kws as [|kw rest IH]; intros n H; [reflexivity|].
  inversion H as [|? ? Hkw Hrest]; subst. simpl. rewrite Hkw. simpl.
  now rewrite IH.
Qed.

Lemma encoded_positions_length :
  forall kws n,
    length (map fst (filter (fun p => encodes js (snd p))
                       (combine (seq n (length kws)) kws))) <= length kws.
Proof.
  induction kws as [|kw rest IH]; intros n; [reflexivity|].
  simpl. specialize (IH (S n)). destruct (encodes js kw); simpl; lia.
Qed.

(** X15: no request is repeated: a run issues its requests for exactly the
    positions whose keyword [encodeURIComponent] accepts, each once and in
    the order of the list; so at most one request per keyword, and exactly
    one per keyword when every keyword is accepted. *)
Theorem handleCheck_one_request_per_keyword :
  apiKey st <> "" -> cx st <> "" ->
  fetch_indices (snd (handleCheck js st net)) =
    map fst (filter (fun p => encodes js (snd p))
               (combine (seq 0 (length (keywordList st))) (keywordList st)))
  /\ length (fetch_indices (snd (handleCheck js st net))) <= length (keywordList st)
  /\ (Forall (fun kw => encodes js kw = true) (keywordList st) ->
      fetch_indices (snd (handleCheck js st net)) = seq 0 (length (keywordList st))).
Proof.
  intros Hkey Hcx.
  assert (E : fetch_indices (snd (handleCheck js st net)) =
              map fst (filter (fun p => encodes js (snd p))
                         (combine (seq 0 (length (keywordList st))) (keywordList st)))).
  { rewrite (handleCheck_run js st net Hkey Hcx). simpl.
    rewrite fetch_indices_app, forKeywords_fetch_indices. simpl.
    apply app_nil_r. }
  split; [exact E | split].
  - rewrite E. apply encoded_positions_length.
  - intros H. rewrite E. now apply encoded_positions_all.
Qed.

End Course.

(** The first update of the run over three distinct keywords. *)
Lemma export_blocked_until_last_update_witness :
  exportDisabled
    [classify Demo.js Demo.st3 "k1" Demo.items3; loadingResult "k2"; loadingResult "k3"]
  = true.
Proof.
  apply (export_blocked_until_last_update Demo.js Demo.st3 Demo.net3 1
           [classify Demo.js Demo.st3 "k1" Demo.items3; loadingResult "k2";
            loadingResult "k3"] "k2").
  - repeat constructor; simpl; intuition discriminate.
  - reflexivity.
  - reflexivity.
Defined.

(** The keyword [a] twice: both rows end as the Result of the second
    request. *)
Lemma handleCheck_last_occurrence_wins_witness :
  nth_error (results (fst (handleCheck Demo.js Demo.st_dup Demo.net_dup))) 0 =
  Some (keywordResult Demo.js Demo.st_dup Demo.net_dup 1 "a").
Proof.
  destruct (handleCheck_last_occurrence_wins Demo.js Demo.st_dup Demo.net_dup 0 "a")
    as [q [H1 [H2 H]]]; [discriminate | discriminate | reflexivity |].
  destruct q as [|[|q]].
  - exfalso. apply (H2 1); [lia | reflexivity].
  - exact H.
  - destruct q; discriminate H1.
Defined.

(** Three keywords that are all accepted. *)
Lemma handleCheck_one_request_per_keyword_witness :
  fetch_indices (snd (handleCheck Demo.js Demo.st3 Demo.net3)) = [0; 1; 2].
Proof.
  destruct (handleCheck_one_request_per_keyword Demo.js Demo.st3 Demo.net3)
    as [_ [_ H]]; try discriminate.
  apply H. repeat constructor.
Defined.

(** ** What a run depends on *)

Section Config.

Variable js : Platform.
Variable net : Network.
Variables st st' : AppState.

Hypothesis same_apiKey : apiKey st = apiKey st'.
Hypothesis same_cx : cx st = cx st'.
Hypothesis same_searchRank : searchRank st = searchRank st'.
Hypothesis same_keywordList : keywordList st = keywordList st'.
Hypothesis same_qaDomainList : qaDomainList st = qaDomainList st'.

Lemma scan_config (kw : string) (all : list SerpItem) :
  forall rest i, scan js st kw all i rest = scan js st' kw all i rest.
Proof.
  induction rest as [|x rest IH]; intros i; simpl; [reflexivity|].
  rewrite same_qaDomainList, IH. reflexivity.
Qed.

Lemma tryKeyword_config (n : nat) (kw : string) :
  tryKeyword js st net n kw = tryKeyword js st' net n kw.
Proof.
  unfold tryKeyword, requestUrl. rewrite same_apiKey, same_cx, same_searchRank.
  destruct (encodeURIComponent js kw) as [q|m]; simpl; [|reflexivity].
  f_equal. unfold afterFetch. destruct (net n _) as [[data|s e]|m]; simpl; try reflexivity.
  unfold classifyData. destruct data as [[items|before|]|m]; simpl; try reflexivity.
  - unfold classify. now rewrite scan_config.
  - now rewrite scan_config.
Qed.

Lemma forKeywords_config :
  forall kws n prev,
    forKeywords js st net n kws prev = forKeywords js st' net n kws prev.
Proof.
  induction kws as [|kw rest IH]; intros n prev; [reflexivity|].
  simpl. unfold keywordResult. rewrite tryKeyword_config, IH. reflexivity.
Qed.

(** X16: a run starts afresh: what it does and the Results it leaves
    depend on the credentials, the rank, the keyword list and the pattern
    list, not on the Results and the loading flag found at its start. *)
Theorem handleCheck_ignores_previous_results :
  snd (handleCheck js st net) = snd (handleCheck js st' net)
  /\ (apiKey st <> "" -> cx st <> "" ->
      results (fst (handleCheck js st net)) = results (fst (handleCheck js st' net))).
Proof.
  split.
  - unfold handleCheck. rewrite <- same_apiKey, <- same_cx, <- same_keywordList.
    destruct (String.eqb (apiKey st) "" || String.eqb (cx st) ""); [reflexivity|].
    rewrite forKeywords_config.
    destruct (forKeywords js st' net 0 (keywordList st) _). reflexivity.
  - intros Hkey Hcx.
    rewrite (handleCheck_run js st net Hkey Hcx).
    rewrite (handleCheck_run js st' net); [|congruence|congruence].
    simpl. now rewrite <- same_keywordList, forKeywords_config.
Qed.

End Config.

(** The run over three keywords, started from a state that still holds a
    failed row and a loading flag. *)
Lemma handleCheck_ignores_previous_results_witness :
  snd (handleCheck Demo.js
         (with_results Demo.st3 [errorResult "old" "Failed to fetch"] true) Demo.net3)
  = snd (handleCheck Demo.js Demo.st3 Demo.net3).
Proof.
  apply (handleCheck_ignores_previous_results Demo.js Demo.net3
           (with_results Demo.st3 [errorResult "old" "Failed to fetch"] true) Demo.st3);
    reflexivity.
Defined.

(** ** The lines of the export *)

Lemma uint_no_LF (d : Decimal.uint) :
  has_unit is_LF (NilEmpty.string_of_uint d) = false.
Proof. induction d; simpl; auto. Qed.

Lemma string_of_nat_no_LF (n : nat) : has_unit is_LF (string_of_nat n) = false.
Proof.
  unfold string_of_nat, NilZero.string_of_uint.
  destruct (Nat.to_uint n) eqn:E; try reflexivity; rewrite <- E; apply uint_no_LF.
Qed.

Lemma csvRow_no_LF (r : Result) :
  has_unit is_LF (keyword r) = false ->
  has_unit is_LF (domainCell r) = false ->
  has_unit is_LF (csvRow r) = false.
Proof.
  intros Hk Hd. unfold csvRow. rewrite join_four, !has_unit_app, Hk, Hd.
  assert (Hrank : has_unit is_LF (rankCell r) = false).
  { unfold rankCell. destruct (rank r); [apply string_of_nat_no_LF | reflexivity]. }
  rewrite Hrank. unfold statusLabel. destruct (Status_eqb (status r) StOk); reflexivity.
Qed.

(** X17: when no keyword and no domain of the Results holds a line feed,
    the exported text has one line per Result after the header line:
    cutting it at the line feeds gives back the header and the rows. *)
Theorem csvText_lines (rs : list Result) :
  (forall r, In r rs ->
     has_unit is_LF (keyword r) = false /\ has_unit is_LF (domainCell r) = false) ->
  split is_LF (csvText rs) = "Keyword,Status,Rank,Domain" :: map csvRow rs
  /\ length (split is_LF (csvText rs)) = S (length rs).
Proof.
  intros H.
  assert (E : split is_LF (csvText rs) = "Keyword,Status,Rank,Domain" :: map csvRow rs).
  { unfold csvText, LF. apply (split_join is_LF); [reflexivity | discriminate|].
    constructor; [reflexivity|]. rewrite Forall_forall. intros row Hrow.
    apply in_map_iff in Hrow. destruct Hrow as [r [<- Hr]].
    destruct (H r Hr). now apply csvRow_no_LF. }
  split; [exact E|]. rewrite E. simpl. now rewrite length_map.
Qed.

(** The Results of the run over three keywords. *)
Lemma csvText_lines_witness :
  length (split is_LF (csvText (results (fst (handleCheck Demo.js Demo.st3 Demo.net3)))))
  = 4.
Proof.
  apply (csvText_lines (results (fst (handleCheck Demo.js Demo.st3 Demo.net3)))).
  intros r [<-|[<-|[<-|[]]]]; split; reflexivity.
Defined.

(** ** More on the matcher *)

(** X18: the answer of the matcher depends on which patterns the list
    holds, not on their order or repetition. *)
Theorem includesAny_order_irrelevant (h : string) (P Q : list string) :
  (forall p, In p P <-> In p Q) ->
  includesAny h P = includesAny h Q.
Proof.
  intros H.
  destruct (includesAny h P) eqn:EP, (includesAny h Q) eqn:EQ; try reflexivity.
  - apply includesAny_true_iff in EP. destruct EP as [p [Hin Hp]].
    rewrite <- EQ. symmetry. apply includesAny_true_iff.
    exists p. split; [now apply H | exact Hp].
  - apply includesAny_true_iff in EQ. destruct EQ as [p [Hin Hp]].
    rewrite <- EP. apply includesAny_true_iff.
    exists p. split; [now apply H | exact Hp].
Qed.

(** The default patterns, reversed. *)
Lemma includesAny_order_irrelevant_witness :
  includesAny "ja.stackoverflow.com" (rev defaultQADomains) =
  includesAny "ja.stackoverflow.com" defaultQADomains.
Proof.
  apply (includesAny_order_irrelevant "ja.stackoverflow.com"
           (rev defaultQADomains) defaultQADomains).
  intros p. symmetry. apply in_rev.
Defined.

(** X19: every subdomain of a matching hostname matches. *)
Theorem includesAny_subdomains (h sub : string) (P : list string) :
  includesAny h P = true ->
  includesAny (sub ++ "." ++ h) P = true.
Proof.
  intros H. apply includesAny_true_iff in H. destruct H as [p [Hin Hp]].
  apply includesAny_true_iff. exists p. split; [exact Hin|]. right.
  destruct Hp as [->|[pre ->]].
  - now exists sub.
  - exists (sub ++ "." ++ pre)%string. now rewrite !append_assoc.
Qed.

(** A subdomain of a default pattern. *)
Lemma includesAny_subdomains_witness :
  includesAny ("m" ++ "." ++ "okwave.jp") defaultQADomains = true.
Proof.
  apply (includesAny_subdomains "okwave.jp" "m" defaultQADomains). reflexivity.
Defined.

Lemma append_longer (pre s : string) : pre <> "" -> s <> (pre ++ s)%string.
Proof.
  intros Hpre H. apply (f_equal String.length) in H.
  rewrite length_append in H. destruct pre; [contradiction|]. simpl in H. lia.
Qed.

Section WwwPattern.

Variable js : Platform.

(** X20: for a URL whose hostname is [www.] followed by [d], the
    normalized hostname is [d]: the pattern [d] matches it, and the pattern
    [www.] followed by [d] does not. *)
Theorem www_pattern_never_matches (url d : string) :
  url_hostname js url = Some ("www." ++ d)%string ->
  hostnameOf js url = d
  /\ includesAny (hostnameOf js url) [d] = true
  /\ includesAny (hostnameOf js url) [("www." ++ d)%string] = false.
Proof.
  intros H.
  assert (E : hostnameOf js url = d) by (unfold hostnameOf; now rewrite H).
  rewrite E. split; [reflexivity | split].
  - unfold includesAny. simpl. now rewrite String.eqb_refl.
  - destruct (includesAny d [("www." ++ d)%string]) eqn:EM; [|reflexivity].
    exfalso. apply includesAny_true_iff in EM.
    destruct EM as [p [[<-|[]] [Hp|[pre Hp]]]].
    + apply (append_longer "www." d); [discriminate | exact Hp].
    + apply (append_longer (pre ++ "." ++ "www.") d).
      * destruct pre; discriminate.
      * now rewrite !append_assoc.
Qed.

End WwwPattern.

(** The URL of a host with the [www.] label, on the concrete platform. *)
Lemma www_pattern_never_matches_witness :
  includesAny (hostnameOf Demo.js "https://www.qa.co/q/3") ["www.qa.co"] = false
  /\ includesAny (hostnameOf Demo.js "https://www.qa.co/q/3") ["qa.co"] = true.
Proof.
  destruct (www_pattern_never_matches Demo.js "https://www.qa.co/q/3" "qa.co")
    as [_ [H1 H2]]; [reflexivity|].
  split; assumption.
Defined.

(** ** The Result of one request *)

Section Outcomes.

Variable js : Platform.
Variable st : AppState.
Variable net : Network.

(** X21: the message of a failed Result: when the keyword cannot be
    encoded no request is issued and the message is that of the exception;
    when the request is rejected, the message of the rejection; when the
    response is not a success and its body has an [error] with a non-empty
    string [message], that message; when that [error] has no truthy
    [message], the generic message with the status code; when a success
    has a body that is not JSON, the message of the parser. *)
Theorem keywordResult_failures (n : nat) (kw : string) :
  (forall m, requestUrl js st kw = Throw m ->
             tryKeyword js st net n kw = ([], Throw m)
             /\ keywordResult js st net n kw = errorResult kw m)
  /\ (forall url, requestUrl js st kw = Ret url ->
        (forall m, net n url = Throw m ->
                   keywordResult js st net n kw = errorResult kw m)
        /\ (forall http_status d e m,
              net n url = Ret (Failure http_status (Ret d)) ->
              get_prop js d "error" = Ret e ->
              get_prop js e "message" = Ret (VStr m) ->
              m <> "" ->
              keywordResult js st net n kw = errorResult kw m)
        /\ (forall http_status d e v,
              net n url = Ret (Failure http_status (Ret d)) ->
              get_prop js d "error" = Ret e ->
              get_prop js e "message" = Ret v ->
              truthy v = false ->
              keywordResult js st net n kw =
              errorResult kw ("HTTP error! status: " ++ string_of_Z http_status))
        /\ (forall m, net n url = Ret (Success (Throw m)) ->
                      keywordResult js st net n kw = errorResult kw m)).
Proof.
  split.
  - intros m H. unfold keywordResult, tryKeyword. rewrite H. split; reflexivity.
  - intros url Hurl. unfold keywordResult, tryKeyword. rewrite Hurl. simpl.
    unfold afterFetch. split; [|split; [|split]].
    + intros m ->. reflexivity.
    + intros http_status d e m -> He Hm Hne. cbn [bind].
      now rewrite (throwHttpError_server_message js http_status d e m He Hm Hne).
    + intros http_status d e v -> He Hm Hv. cbn [bind].
      now rewrite (throwHttpError_generic js http_status d e v He Hm Hv).
    + intros m ->. reflexivity.
Qed.

(** X22: the Result of a success whose body is JSON.  When the body is not
    null and its [items] is absent or an array of items, the Result is the
    classification of the items and is never failed, and a body without
    [items] gives the same Result as an empty list: not-matched with an
    empty result list.  When the body is null, reading [data.items] throws
    and the Result is failed with the message of that TypeError.  When the
    array holds a null element, the Result is the match found before the
    null if there is one, and otherwise reading [.link] of the null throws
    and the Result is failed with the message of that TypeError. *)
Theorem keywordResult_success (n : nat) (kw url : string) :
  requestUrl js st kw = Ret url ->
  (forall items,
      net n url = Ret (Success (Ret (Body items))) ->
      keywordResult js st net n kw =
        classify js st kw (match items with Some l => l | None => [] end)
      /\ status (keywordResult js st net n kw) <> StError
      /\ (items = None \/ items = Some [] ->
          keywordResult js st net n kw =
          {| keyword := kw; status := StNg; rank := None; domain := None;
             serp := Some []; error := None |}))
  /\ (net n url = Ret (Success (Ret NullBody)) ->
      keywordResult js st net n kw = errorResult kw (cannot_read js VNull "items"))
  /\ (forall before,
        net n url = Ret (Success (Ret (BodyNullItem before))) ->
        ((forall item, In item before -> hostMatches js st item = false) ->
         keywordResult js st net n kw = errorResult kw (cannot_read js VNull "link"))
        /\ (forall k item,
              nth_error before k = Some item ->
              hostMatches js st item = true ->
              (forall j other, j < k -> nth_error before j = Some other ->
                               hostMatches js st other = false) ->
              status (keywordResult js st net n kw) = StOk
              /\ rank (keywordResult js st net n kw) = Some (k + 1)
              /\ domain (keywordResult js st net n kw) =
                 Some (hostnameOf js (link item)))).
Proof.
  intros Hurl.
  assert (E : forall data, net n url = Ret (Success (Ret data)) ->
                keywordResult js st net n kw =
                match classifyData js st kw (Ret data) with
                | Ret result => result
                | Throw m => errorResult kw m
                end).
  { intros data Hnet. unfold keywordResult, tryKeyword. rewrite Hurl. simpl.
    unfold afterFetch. rewrite Hnet. reflexivity. }
  split; [|split].
  - intros items Hnet. rewrite (E _ Hnet). simpl. split; [reflexivity | split].
    + destruct (classify_shape js st kw
                  (match items with Some l => l | None => [] end))
        as [_ [H|[H _]]]; rewrite H; discriminate.
    + intros [->| ->]; reflexivity.
  - intros Hnet. rewrite (E _ Hnet). reflexivity.
  - intros before Hnet. rewrite (E _ Hnet). simpl. split.
    + intros Hnone. now rewrite (scan_none js st kw before before 0 Hnone).
    + intros k item Hk Hm Hbefore.
      rewrite (scan_first js st kw before before 0 k item Hk Hm Hbefore).
      repeat split.
Qed.

End Outcomes.

(** The refused request of the run over three keywords. *)
Lemma keywordResult_failures_witness :
  keywordResult Demo.js Demo.st3 Demo.net3 1 "k2" = errorResult "k2" "Forbidden".
Proof.
  destruct (proj2 (keywordResult_failures Demo.js Demo.st3 Demo.net3 1 "k2")
              "https://www.googleapis.com/customsearch/v1?key=KEY&cx=CX&q=k2&num=10&gl=jp&hl=ja"
              eq_refl) as [_ [H _]].
  apply (H 403%Z (VObj [("error", VObj [("message", VStr "Forbidden")])])
           (VObj [("message", VStr "Forbidden")]) "Forbidden");
    try reflexivity.
  discriminate.
Defined.

(** The third request of the run over three keywords, a body without
    items; and a request answered with the body null. *)
Lemma keywordResult_success_witness :
  keywordResult Demo.js Demo.st3 Demo.net3 2 "k3" =
  {| keyword := "k3"; status := StNg; rank := None; domain := None;
     serp := Some []; error := None |}
  /\ keywordResult Demo.js Demo.st3 (fun _ _ => Ret (Success (Ret NullBody))) 2 "k3" =
     errorResult "k3" "Cannot read properties of null (reading 'items')".
Proof.
  split.
  - destruct (proj1 (keywordResult_success Demo.js Demo.st3 Demo.net3 2 "k3"
                       "https://www.googleapis.com/customsearch/v1?key=KEY&cx=CX&q=k3&num=10&gl=jp&hl=ja"
                       eq_refl) None eq_refl) as [_ [_ H]].
    apply H. left. reflexivity.
  - apply (proj1 (proj2 (keywordResult_success Demo.js Demo.st3
                           (fun _ _ => Ret (Success (Ret NullBody))) 2 "k3"
                           "https://www.googleapis.com/customsearch/v1?key=KEY&cx=CX&q=k3&num=10&gl=jp&hl=ja"
                           eq_refl))).
    reflexivity.
Defined.

(** ** The updates of a batch, one by one *)

Section Updates.

Variable js : Platform.
Variable st : AppState.
Variable net : Network.

Lemma tryKeyword_request (n : nat) (kw : string) :
  fst (tryKeyword js st net n kw) =
  match requestUrl js st kw with
  | Ret url => [EvFetch n url]
  | Throw _ => []
  end.
Proof. unfold tryKeyword. destruct (requestUrl js st kw); reflexivity. Qed.

Lemma tryKeyword_no_update (n : nat) (kw : string) :
  states (fst (tryKeyword js st net n kw)) = [].
Proof. rewrite tryKeyword_request. destruct (requestUrl js st kw); reflexivity. Qed.

(** The part of the trace that belongs to the keyword at position [k] of
    the loop: its request, if the URL can be built, and right after it the
    update that stores its Result at its row; before it come [k] updates
    and requests of earlier positions only, after it requests of later
    positions only. *)
Lemma forKeywords_segment (all : list string) :
  forall kws n prev k kw,
    skipn n all = kws ->
    map keyword prev = all ->
    nth_error kws k = Some kw ->
    exists pre rs post,
      snd (forKeywords js st net n kws prev) =
        pre ++ fst (tryKeyword js st net (n + k) kw) ++ EvSetResults rs :: post
      /\ length (states pre) = k
      /\ nth_error rs (n + k) = Some (keywordResult js st net (n + k) kw)
      /\ Forall (fun m => m < n + k) (fetch_indices pre)
      /\ Forall (fun m => n + k < m) (fetch_indices post).
Proof.
  induction kws as [|kw0 rest IH]; intros n prev k kw Hleft Hkeys Hk.
  - destruct k; discriminate.
  - apply skipn_cons_inv in Hleft. destruct Hleft as [Hn Hleft].
    rewrite forKeywords_cons. simpl.
    destruct k as [|k]; simpl in Hk.
    + injection Hk as ->. rewrite Nat.add_0_r.
      exists [], (replaceByKeyword kw (keywordResult js st net n kw) prev),
        (snd (forKeywords js st net (S n) rest
                (replaceByKeyword kw (keywordResult js st net n kw) prev))).
      split; [reflexivity | split; [reflexivity | split; [|split]]].
      * rewrite <- Hkeys, nth_error_map in Hn.
        destruct (nth_error prev n) as [r|] eqn:Hr; [|discriminate].
        injection Hn as Hn.
        rewrite (replaceByKeyword_nth _ _ _ _ _ Hr), Hn, String.eqb_refl. reflexivity.
      * constructor.
      * eapply Forall_impl; [|apply forKeywords_fetch_order]. simpl. intros m Hm. lia.
    + destruct (IH (S n) (replaceByKeyword kw0 (keywordResult js st net n kw0) prev)
                  k kw Hleft) as [pre [rs [post [H1 [H2 [H3 [H4 H5]]]]]]]; [|exact Hk|].
      * rewrite replaceByKeyword_keywords; [exact Hkeys | apply keywordResult_keyword].
      * replace (n + S k) with (S n + k) by lia.
        exists (fst (tryKeyword js st net n kw0)
                ++ EvSetResults (replaceByKeyword kw0 (keywordResult js st net n kw0) prev)
                :: pre), rs, post.
        split; [|split; [|split; [exact H3 | split; [|exact H5]]]].
        -- rewrite H1, <- app_assoc. reflexivity.
        -- rewrite states_app, tryKeyword_no_update. simpl. now rewrite H2.
        -- rewrite fetch_indices_app, tryKeyword_fetch_indices. simpl.
           apply Forall_app. split.
           ++ destruct (encodes js kw0); [constructor; [lia | constructor] | constructor].
           ++ eapply Forall_impl; [|exact H4]. simpl. intros m Hm. lia.
Qed.

(** The update number [k] of the loop is the replacement of line 126 or
    129 for the keyword at position [k], applied to the rows before it. *)
Lemma forKeywords_states_step :
  forall kws n prev k kw,
    nth_error kws k = Some kw ->
    exists before,
      nth_error (prev :: states (snd (forKeywords js st net n kws prev))) k = Some before
      /\ nth_error (states (snd (forKeywords js st net n kws prev))) k =
         Some (replaceByKeyword kw (keywordResult js st net (n + k) kw) before).
Proof.
  induction kws as [|kw0 rest IH]; intros n prev k kw Hk.
  - destruct k; discriminate.
  - rewrite states_forKeywords_cons. simpl.
    destruct k as [|k]; simpl in Hk.
    + injection Hk as ->. exists prev. rewrite Nat.add_0_r. split; reflexivity.
    + destruct (IH (S n) (replaceByKeyword kw0 (keywordResult js st net n kw0) prev)
                  k kw Hk) as [before [H1 H2]].
      exists before. replace (n + S k) with (S n + k) by lia. split; assumption.
Qed.

(** A row whose text is not among the keywords of the loop is the same in
    every update. *)
Lemma forKeywords_from_prev :
  forall kws n prev rs,
    In rs (states (snd (forKeywords js st net n kws prev))) ->
    forall i r, nth_error prev i = Some r -> ~ In (keyword r) kws ->
                nth_error rs i = Some r.
Proof.
  induction kws as [|kw rest IH]; intros n prev rs Hrs i r Hr Hnotin; [destruct Hrs|].
  rewrite states_forKeywords_cons in Hrs. simpl in Hrs.
  assert (Hnext : nth_error (replaceByKeyword kw (keywordResult js st net n kw) prev) i
                  = Some r).
  { rewrite (replaceByKeyword_nth _ _ _ _ _ Hr).
    destruct (String.eqb_spec (keyword r) kw) as [Heq|]; [|reflexivity].
    exfalso. apply Hnotin. left. now symmetry. }
  destruct Hrs as [<-|Hrs]; [exact Hnext|].
  apply (IH (S n) _ rs Hrs i r Hnext). intros H. apply Hnotin. now right.
Qed.

(** Of two updates of the loop, the later keeps every row of the earlier
    whose text is not among the keywords still to come after the
    earlier. *)
Lemma forKeywords_states_keep :
  forall kws n prev l1 rs1 l2 rs2 l3,
    states (snd (forKeywords js st net n kws prev)) = l1 ++ rs1 :: l2 ++ rs2 :: l3 ->
    forall i r, nth_error rs1 i = Some r ->
                ~ In (keyword r) (skipn (S (length l1)) kws) ->
                nth_error rs2 i = Some r.
Proof.
  induction kws as [|kw rest IH]; intros n prev l1 rs1 l2 rs2 l3 H i r Hr Hnotin.
  - destruct l1; discriminate.
  - rewrite states_forKeywords_cons in H. simpl in H.
    destruct l1 as [|x l1]; simpl in H; injection H as Hx H.
    + subst rs1. simpl in Hnotin.
      eapply (forKeywords_from_prev rest (S n)); [|exact Hr | exact Hnotin].
      rewrite H. apply in_elt.
    + eapply (IH (S n)); [exact H | exact Hr | exact Hnotin].
Qed.

(** A row of the update number [j] of the loop is a row from before the
    loop or has the text of one of the first [j + 1] keywords. *)
Lemma forKeywords_rows_processed :
  forall kws n prev j rs,
    nth_error (states (snd (forKeywords js st net n kws prev))) j = Some rs ->
    forall r, In r rs -> In r prev \/ In (keyword r) (firstn (S j) kws).
Proof.
  induction kws as [|kw rest IH]; intros n prev j rs Hj r Hr.
  - destruct j; discriminate.
  - rewrite states_forKeywords_cons in Hj. simpl in Hj.
    assert (Hnext : forall r0,
               In r0 (replaceByKeyword kw (keywordResult js st net n kw) prev) ->
               In r0 prev \/ keyword r0 = kw).
    { intros r0 H0. apply replaceByKeyword_In in H0. destruct H0 as [->|[H0 _]].
      - right. apply keywordResult_keyword.
      - now left. }
    destruct j as [|j]; simpl in Hj.
    + injection Hj as <-. destruct (Hnext r Hr) as [H|H]; [now left|].
      right. left. now symmetry.
    + destruct (IH (S n) _ j rs Hj r Hr) as [H|H].
      * destruct (Hnext r H) as [H'|H']; [now left|]. right. left. now symmetry.
      * right. right. exact H.
Qed.

End Updates.

Lemma count_once_not_later (k : string) (l : list string) (t : nat) :
  count_occ string_dec l k = 1 ->
  In k (firstn t l) ->
  ~ In k (skipn t l).
Proof.
  intros Hcount Hfirst.
  rewrite <- (firstn_skipn t l), count_occ_app in Hcount.
  apply (count_occ_In string_dec) in Hfirst.
  apply (count_occ_not_In string_dec). lia.
Qed.

Lemma nth_error_middle {A : Type} (l1 : list A) (x : A) (l2 : list A) :
  nth_error (l1 ++ x :: l2) (length l1) = Some x.
Proof. induction l1; simpl; auto. Qed.

Section Claims.

Variable js : Platform.

(** C3: with credentials, the handler first sets one loading Result per
    keyword, in the order of the list, before any request.  Then every
    keyword is processed, one after the other in the order of the list: for
    the keyword at position [i], after exactly [i] updates, its request is
    issued (when its URL can be built), and right after it comes the update
    that stores its Result, which is terminal, at its row; the requests
    before are those of earlier positions and the requests after those of
    later positions.  So there is one update per keyword, requests are in
    the order of the list, and when the request of a keyword is issued the
    Result of every earlier keyword is already terminal. *)
Theorem handleCheck_sequential (st : AppState) (net : Network) :
  apiKey st <> "" -> cx st <> "" ->
  exists tr,
    snd (handleCheck js st net) =
      EvSetIsLoading true :: EvSetResults (map loadingResult (keywordList st))
        :: tr ++ [EvSetIsLoading false]
    /\ map keyword (map loadingResult (keywordList st)) = keywordList st
    /\ Forall (fun r => status r = StLoading) (map loadingResult (keywordList st))
    /\ StronglySorted lt (fetch_indices tr)
    /\ length (states tr) = length (keywordList st)
    /\ (forall pre n url post,
          tr = pre ++ EvFetch n url :: post ->
          (exists kw, nth_error (keywordList st) n = Some kw
                      /\ requestUrl js st kw = Ret url)
          /\ forall j, j < n ->
               terminal_at (current (map loadingResult (keywordList st)) pre) j)
    /\ (forall i kw,
          nth_error (keywordList st) i = Some kw ->
          terminal (keywordResult js st net i kw)
          /\ exists pre rs post,
               tr = pre
                    ++ match requestUrl js st kw with
                       | Ret url => [EvFetch i url]
                       | Throw _ => []
                       end
                    ++ EvSetResults rs :: post
               /\ length (states pre) = i
               /\ nth_error rs i = Some (keywordResult js st net i kw)
               /\ Forall (fun m => m < i) (fetch_indices pre)
               /\ Forall (fun m => i < m) (fetch_indices post)).
Proof.
  intros Hkey Hcx. rewrite (handleCheck_run js st net Hkey Hcx). simpl.
  exists (snd (forKeywords js st net 0 (keywordList st)
                 (map loadingResult (keywordList st)))).
  split; [reflexivity|].
  split; [apply loading_keywords|].
  split; [rewrite Forall_forall; apply loading_not_terminal|].
  split; [apply forKeywords_fetch_order|].
  split; [apply states_forKeywords_length|].
  split.
  - intros pre n url post Htr.
    pose proof (forKeywords_at_each_fetch js st net (keywordList st)
                  (keywordList st) 0 (map loadingResult (keywordList st))
                  eq_refl (loading_keywords _)) as H.
    rewrite Htr in H.
    apply at_each_fetch_split in H; [exact H|].
    intros j Hj. lia.
  - intros i kw Hi. split; [apply keywordResult_terminal|].
    destruct (forKeywords_segment js st net (keywordList st) (keywordList st) 0
                (map loadingResult (keywordList st)) i kw eq_refl
                (loading_keywords _) Hi) as [pre [rs [post H]]].
    simpl in H. rewrite tryKeyword_request in H.
    exists pre, rs, post. exact H.
Qed.

(** C5 (amended): a Result that has become terminal is the same in every
    later update of the run unless its keyword text occurs again among the
    keywords that are still to be processed; in particular a terminal
    Result whose text occurs once in the list is never changed again, nor
    is any when the texts of the list are pairwise distinct.  The update of
    a keyword, which every keyword of a run with credentials gets, replaces
    every row of its text by its Result, terminal or not, and leaves the
    other rows. *)
Theorem handleCheck_never_mutates_terminal (st : AppState) (net : Network) :
  (forall pre rs1 mid rs2 post,
      snd (handleCheck js st net) =
        pre ++ EvSetResults rs1 :: mid ++ EvSetResults rs2 :: post ->
      forall i r,
        nth_error rs1 i = Some r -> terminal r ->
        (~ In (keyword r) (skipn (length (states pre)) (keywordList st))
         \/ count_occ string_dec (keywordList st) (keyword r) = 1) ->
        nth_error rs2 i = Some r)
  /\ (NoDup (keywordList st) ->
      never_mutated_after_terminal (snd (handleCheck js st net)))
  /\ (apiKey st <> "" -> cx st <> "" ->
      forall q kw,
        nth_error (keywordList st) q = Some kw ->
        exists before after,
          nth_error (states (snd (handleCheck js st net))) q = Some before
          /\ nth_error (states (snd (handleCheck js st net))) (S q) = Some after
          /\ forall i r,
               nth_error before i = Some r ->
               nth_error after i =
               Some (if String.eqb (keyword r) kw
                     then keywordResult js st net q kw else r)).
Proof.
  destruct (String.eqb_spec (apiKey st) "") as [Hkey|Hkey];
    [|destruct (String.eqb_spec (cx st) "") as [Hcx|Hcx]].
  - rewrite (handleCheck_alert_only js st net (or_introl Hkey)). simpl.
    split; [|split].
    + intros pre rs1 mid rs2 post H. destruct pre as [|e [|e' pre]]; discriminate.
    + intros _ pre rs1 mid rs2 post H. destruct pre as [|e [|e' pre]]; discriminate.
    + intros H. contradiction.
  - rewrite (handleCheck_alert_only js st net (or_intror Hcx)). simpl.
    split; [|split].
    + intros pre rs1 mid rs2 post H. destruct pre as [|e [|e' pre]]; discriminate.
    + intros _ pre rs1 mid rs2 post H. destruct pre as [|e [|e' pre]]; discriminate.
    + intros _ H. contradiction.
  - rewrite (handleCheck_run js st net Hkey Hcx). simpl.
    set (init := map loadingResult (keywordList st)).
    set (tr := snd (forKeywords js st net 0 (keywordList st) init)).
    assert (Hstates : states (EvSetIsLoading true :: EvSetResults init
                                :: tr ++ [EvSetIsLoading false]) = init :: states tr).
    { simpl. rewrite states_app. simpl. now rewrite app_nil_r. }
    split; [|split].
    + intros pre rs1 mid rs2 post Htr i r Hr Ht Hcase.
      apply (f_equal states) in Htr. rewrite Hstates in Htr.
      rewrite states_app in Htr. simpl in Htr. rewrite states_app in Htr.
      simpl in Htr.
      destruct (states pre) as [|x l1] eqn:Epre; simpl in Htr; injection Htr as Hx Htr.
      * exfalso. subst rs1. apply Ht.
        apply (loading_not_terminal (keywordList st)). eapply nth_error_In. exact Hr.
      * assert (Hnotin : ~ In (keyword r) (skipn (S (length l1)) (keywordList st))).
        { destruct Hcase as [H|H]; [exact H|].
          apply (count_once_not_later _ _ _ H).
          assert (Hj : nth_error (states tr) (length l1) = Some rs1)
            by (rewrite Htr; apply nth_error_middle).
          destruct (forKeywords_rows_processed js st net (keywordList st) 0 init
                      (length l1) rs1 Hj r) as [Hin|Hin];
            [eapply nth_error_In; exact Hr | | exact Hin].
          exfalso. apply Ht. apply (loading_not_terminal (keywordList st)). exact Hin. }
        apply (forKeywords_states_keep js st net (keywordList st) 0 init
                 l1 rs1 (states mid) rs2 (states post) Htr i r Hr Hnotin).
    + intros Hnodup pre rs1 mid rs2 post Htr.
      apply (f_equal states) in Htr. rewrite Hstates in Htr.
      rewrite states_app in Htr. simpl in Htr. rewrite states_app in Htr.
      simpl in Htr.
      destruct (forKeywords_keeps js st net (keywordList st) 0 init Hnodup)
        as [Hall Hpairs].
      { intros r Hr Ht. apply loading_not_terminal in Hr. contradiction. }
      apply (ForallOrdPairs_pick keeps (states pre) rs1 (states mid) rs2 (states post)).
      rewrite <- Htr. constructor; assumption.
    + intros _ _ q kw Hq.
      rewrite states_app. simpl. rewrite app_nil_r.
      destruct (forKeywords_states_step js st net (keywordList st) 0 init q kw Hq)
        as [before [H1 H2]].
      fold tr in H1, H2. simpl in H2.
      exists before, (replaceByKeyword kw (keywordResult js st net q kw) before).
      split; [exact H1 | split; [exact H2|]].
      intros i r Hr. apply replaceByKeyword_nth. exact Hr.
Qed.

(** C8, the claim as stated, fails on a list with a repeated keyword: for
    the keywords [a; a], the request of the first answered with no items
    and the request of the second rejected, the row of the first keyword,
    whose own request gave not-matched, ends failed with the message of
    the second request. *)
Lemma handleCheck_failure_reaches_same_text :
  status (keywordResult Demo.js Demo.st_dup Demo.net_dup 0 "a") = StNg
  /\ nth_error (results (fst (handleCheck Demo.js Demo.st_dup Demo.net_dup))) 0 =
     Some (errorResult "a" "Failed to fetch").
Proof. split; reflexivity. Qed.

(** C8 (amended): when the request of the keyword at position [f] fails,
    the batch is not aborted: every keyword of the list is processed, the
    update of each storing at its row its own Result, which is terminal and
    depends on the answer to its own request alone.  The failure reaches
    the rows of the failed keyword's text and no other: the update of [f]
    sets every row of that text to the failed Result and leaves every other
    row as it was; at the end each row holds the Result of the last keyword
    of the list that has its text, which for a row of another text is not
    the failed one; and when the texts of the list are pairwise distinct
    each row ends with the Result of its own request. *)
Theorem handleCheck_isolates_failures (st : AppState) (net : Network)
    (f : nat) (kf : string) :
  apiKey st <> "" -> cx st <> "" ->
  nth_error (keywordList st) f = Some kf ->
  status (keywordResult js st net f kf) = StError ->
  (forall i kw,
      nth_error (keywordList st) i = Some kw ->
      terminal (keywordResult js st net i kw)
      /\ (exists rs,
            nth_error (states (snd (handleCheck js st net))) (S i) = Some rs
            /\ nth_error rs i = Some (keywordResult js st net i kw))
      /\ (forall net', (forall url, net' i url = net i url) ->
                       keywordResult js st net' i kw = keywordResult js st net i kw))
  /\ (exists before after,
        nth_error (states (snd (handleCheck js st net))) f = Some before
        /\ nth_error (states (snd (handleCheck js st net))) (S f) = Some after
        /\ forall i r,
             nth_error before i = Some r ->
             (keyword r <> kf -> nth_error after i = Some r)
             /\ (keyword r = kf ->
                 nth_error after i = Some (keywordResult js st net f kf)
                 /\ exists r', nth_error after i = Some r' /\ status r' = StError))
  /\ (forall i ki,
        nth_error (keywordList st) i = Some ki ->
        exists q,
          nth_error (keywordList st) q = Some ki
          /\ (forall j, q < j -> nth_error (keywordList st) j <> Some ki)
          /\ nth_error (results (fst (handleCheck js st net))) i =
             Some (keywordResult js st net q ki)
          /\ (ki <> kf -> q <> f))
  /\ (NoDup (keywordList st) ->
      forall i ki,
        nth_error (keywordList st) i = Some ki ->
        nth_error (results (fst (handleCheck js st net))) i =
        Some (keywordResult js st net i ki)).
Proof.
  intros Hkey Hcx Hf Hfail.
  rewrite (handleCheck_run js st net Hkey Hcx). simpl.
  set (init := map loadingResult (keywordList st)).
  set (tr := snd (forKeywords js st net 0 (keywordList st) init)).
  assert (Hstates : states (tr ++ [EvSetIsLoading false]) = states tr).
  { rewrite states_app. simpl. apply app_nil_r. }
  rewrite Hstates.
  assert (Hlast : forall i ki,
             nth_error (keywordList st) i = Some ki ->
             exists q,
               nth_error (keywordList st) q = Some ki
               /\ (forall j, q < j -> nth_error (keywordList st) j <> Some ki)
               /\ nth_error (fst (forKeywords js st net 0 (keywordList st) init)) i =
                  Some (keywordResult js st net q ki)).
  { intros i ki Hi.
    pose proof (last_index_spec ki (keywordList st)) as Hspec.
    destruct (last_index ki (keywordList st)) as [q|] eqn:E.
    - exists q. destruct Hspec as [H1 H2]. split; [exact H1 | split; [exact H2|]].
      rewrite (forKeywords_last js st net (keywordList st) 0 init i (loadingResult ki)).
      + simpl. now rewrite E.
      + unfold init. rewrite nth_error_map, Hi. reflexivity.
    - exfalso. apply Hspec. eapply nth_error_In. exact Hi. }
  split; [|split; [|split]].
  - intros i kw Hi. split; [apply keywordResult_terminal|]. split.
    + apply (forKeywords_states_nth js st net (keywordList st) (keywordList st) 0
               init i kw eq_refl (loading_keywords _) Hi).
    + intros net'. apply keywordResult_local.
  - destruct (forKeywords_states_step js st net (keywordList st) 0 init f kf Hf)
      as [before [H1 H2]].
    fold tr in H1, H2. simpl in H2.
    exists before, (replaceByKeyword kf (keywordResult js st net f kf) before).
    split; [exact H1 | split; [exact H2|]].
    intros i r Hr. rewrite (replaceByKeyword_nth _ _ _ _ _ Hr).
    destruct (String.eqb_spec (keyword r) kf) as [Heq|Hne].
    + split; [contradiction|]. intros _. split; [reflexivity|].
      eexists. split; [reflexivity | exact Hfail].
    + split; [reflexivity | contradiction].
  - intros i ki Hi. destruct (Hlast i ki Hi) as [q [H1 [H2 H3]]].
    exists q. repeat split; try assumption.
    intros Hne ->. rewrite Hf in H1. injection H1 as H1. auto.
  - intros Hnodup i ki Hi. destruct (Hlast i ki Hi) as [q [H1 [_ H3]]].
    rewrite H3. do 2 f_equal.
    apply (proj1 (NoDup_nth_error (keywordList st)) Hnodup).
    + apply nth_error_Some. congruence.
    + congruence.
Qed.

End Claims.

(** A run over three keywords. *)
Lemma handleCheck_sequential_witness :
  exists tr,
    snd (handleCheck Demo.js Demo.st3 Demo.net3) =
      EvSetIsLoading true :: EvSetResults (map loadingResult ["k1"; "k2"; "k3"])
        :: tr ++ [EvSetIsLoading false]
    /\ StronglySorted lt (fetch_indices tr)
    /\ length (states tr) = 3.
Proof.
  destruct (handleCheck_sequential Demo.js Demo.st3 Demo.net3)
    as [tr [H1 [_ [_ [H2 [H3 _]]]]]]; try discriminate.
  exists tr. repeat split; assumption.
Defined.

(** Three distinct keywords. *)
Lemma handleCheck_never_mutates_terminal_witness :
  never_mutated_after_terminal (snd (handleCheck Demo.js Demo.st3 Demo.net3)).
Proof.
  apply (proj1 (proj2 (handleCheck_never_mutates_terminal Demo.js Demo.st3 Demo.net3))).
  repeat constructor; simpl; intuition discriminate.
Defined.

(** The second of three requests is refused with HTTP 403: the first and
    third rows end with the Results of their own requests. *)
Lemma handleCheck_isolates_failures_witness :
  nth_error (results (fst (handleCheck Demo.js Demo.st3 Demo.net3))) 0 =
  Some (keywordResult Demo.js Demo.st3 Demo.net3 0 "k1")
  /\ nth_error (results (fst (handleCheck Demo.js Demo.st3 Demo.net3))) 2 =
     Some (keywordResult Demo.js Demo.st3 Demo.net3 2 "k3").
Proof.
  destruct (handleCheck_isolates_failures Demo.js Demo.st3 Demo.net3 1 "k2")
    as [_ [_ [_ H]]]; try discriminate; try reflexivity.
  assert (Hnodup : NoDup (keywordList Demo.st3))
    by (repeat constructor; simpl; intuition discriminate).
  split; apply (H Hnodup); reflexivity.
Defined.
